(** * csm::LinearDecayCorrelationModel

    A shallow embedding of [LinearDecayCorrelationModel.cpp]: the table that
    assigns sensor model parameters to correlation parameter groups, the
    per-group piecewise linear decay curves with their validation, and the
    evaluation of the correlation coefficient.

    Modelling choices.
    - [size_t] indices and counts are [nat]; the code does no arithmetic on
      them apart from [++i] and the guarded [i-1].
    - [double] is modelled by the exact rationals [Q].  Comparisons of the
      source ([<], [<=], [!=], [==]) are the boolean comparisons of [Q], so
      equality of results is [Qeq], written [==].  Rounding, infinities and
      NaN are outside the model.
    - Where NaN, overflow or rounding decide what the code does, the curve
      validation and the evaluation are embedded a second time, in
      [binary64], on the primitive IEEE 754 binary64 numbers.
    - [std::vector<T>] is [list T]; [v[i]] is list lookup and an index
      outside the vector is the fault [OutOfBounds].
    - [throw Error(...)] is the outcome [Throw]; a mutating member function
      is a function from the object to an outcome and the object it leaves
      behind. *)

From Stdlib Require Import QArith Qabs String ZArith Lia Lqa PrimFloat.
From stdpp Require Import base list.

Local Open Scope string_scope.

Module csm.

(** ** Error.h *)

(** Modelled from the spec: [Error.h] is not among the sources.  The two
    kinds below are the ones this file throws; an [Error] carries its kind,
    a message and the name of the function that raised it. *)
Inductive ErrorType : Set :=
| BOUNDS
| INDEX_OUT_OF_RANGE.

Record Error : Set := mkError {
  getError : ErrorType;
  getMessage : string;
  getFunction : string
}.

(** ** Outcomes of a call *)

(** What the C++ leaves undefined and the model keeps apart from a normal
    return and from an exception. *)
Inductive Fault : Set :=
| OutOfBounds
| DivisionByZero.

Inductive outcome (A : Type) : Type :=
| Ok (a : A)
| Throw (e : Error)
| Undefined (f : Fault).

Arguments Ok {A} a.
Arguments Throw {A} e.
Arguments Undefined {A} f.

#[global] Instance outcome_ret : MRet outcome := fun A a => Ok a.
#[global] Instance outcome_bind : MBind outcome := fun A B k c =>
  match c with
  | Ok a => k a
  | Throw e => Throw e
  | Undefined f => Undefined f
  end.

(** [raises c t]: the call ended with an [Error] of kind [t]. *)
Definition raises {A} (c : outcome A) (t : ErrorType) : Prop :=
  match c with
  | Throw e => getError e = t
  | _ => False
  end.

(** [returns c P]: the call returned normally with a value satisfying [P]. *)
Definition returns {A} (c : outcome A) (P : A -> Prop) : Prop :=
  match c with
  | Ok a => P a
  | _ => False
  end.

(** ** double *)

Abbreviation double := Q (only parsing).

Definition Qlt_bool (x y : Q) : bool :=
  match (x ?= y)%Q with
  | Lt => true
  | _ => false
  end.

Definition Qgt_bool (x y : Q) : bool := Qlt_bool y x.

Definition fabs (x : double) : double := Qabs x.

(** [x / y] on [double]; a zero divisor is reported instead of computed. *)
Definition fdiv (x y : double) : outcome double :=
  if Qeq_bool y 0 then Undefined DivisionByZero else Ok (x / y)%Q.

(** ** std::vector *)

(** [v[i]] as an rvalue. *)
Definition vec_at {A} (v : list A) (i : nat) : outcome A :=
  match v !! i with
  | Some x => Ok x
  | None => Undefined OutOfBounds
  end.

(** [v[i] = x]. *)
Definition vec_assign {A} (v : list A) (i : nat) (x : A) : outcome (list A) :=
  if (i <? length v)%nat then Ok (<[i:=x]> v) else Undefined OutOfBounds.

(** The conversion of a [size_t] to [int] (32 bits, two's complement). *)
Definition size_t_to_int (n : nat) : Z :=
  let z := (Z.of_nat n mod 2 ^ 32)%Z in
  if (z <? 2 ^ 31)%Z then z else (z - 2 ^ 32)%Z.

(** ** csm.h *)

(** [unsigned int] is 32 bits wide; its arithmetic wraps around. *)
Definition UINT_MODULUS : N := 2 ^ 32.

(** The index expression [dim*l + s] of the two-dimensional [covar]
    accessors, computed in [unsigned int]. *)
Definition covar_index (dim l s : N) : N :=
  (((dim * l) mod UINT_MODULUS + s) mod UINT_MODULUS)%N.

Module ImageCoord.

Record t : Set := mk {
  line : double;
  samp : double
}.

(** [ImageCoord()]. *)
Definition default : t := mk 0.0 0.0.

End ImageCoord.

Module ImageCoordCovar.

(** The base class part and the private vector [theCovar]. *)
Record t : Set := mk {
  base : ImageCoord.t;
  theCovar : list double
}.

(** [ImageCoordCovar()]. *)
Definition default : t := mk ImageCoord.default (replicate 4 0.0%Q).

(** [ImageCoordCovar(aLine, aSamp)]. *)
Definition new (aLine aSamp : double) : t :=
  mk (ImageCoord.mk aLine aSamp) (replicate 4 0.0%Q).

(** [covar(i)], read. *)
Definition covar (i : N) (c : t) : outcome double :=
  vec_at (theCovar c) (N.to_nat i).

(** [covar(i) = x], through the reference the non-const overload returns. *)
Definition covar_assign (i : N) (x : double) (c : t) : outcome t :=
  v ← vec_assign (theCovar c) (N.to_nat i) x;
  Ok (mk (base c) v).

(** [covar(l, s)], read. *)
Definition covar_ls (l s : N) (c : t) : outcome double :=
  vec_at (theCovar c) (N.to_nat (covar_index 2 l s)).

(** [covar(l, s) = x]. *)
Definition covar_ls_assign (l s : N) (x : double) (c : t) : outcome t :=
  v ← vec_assign (theCovar c) (N.to_nat (covar_index 2 l s)) x;
  Ok (mk (base c) v).

End ImageCoordCovar.

Module EcefCoord.

Record t : Set := mk {
  x : double;
  y : double;
  z : double
}.

(** [EcefCoord()]. *)
Definition default : t := mk 0.0 0.0 0.0.

End EcefCoord.

Module EcefCoordCovar.

(** The base class part and the private vector [theCovar]. *)
Record t : Set := mk {
  base : EcefCoord.t;
  theCovar : list double
}.

(** [EcefCoordCovar()]. *)
Definition default : t := mk EcefCoord.default (replicate 9 0.0%Q).

(** [EcefCoordCovar(aX, aY, aZ)]. *)
Definition new (aX aY aZ : double) : t :=
  mk (EcefCoord.mk aX aY aZ) (replicate 9 0.0%Q).

(** [covar(i)], read. *)
Definition covar (i : N) (c : t) : outcome double :=
  vec_at (theCovar c) (N.to_nat i).

(** [covar(i) = x], through the reference the non-const overload returns. *)
Definition covar_assign (i : N) (v : double) (c : t) : outcome t :=
  w ← vec_assign (theCovar c) (N.to_nat i) v;
  Ok (mk (base c) w).

(** [covar(l, s)], read. *)
Definition covar_ls (l s : N) (c : t) : outcome double :=
  vec_at (theCovar c) (N.to_nat (covar_index 3 l s)).

(** [covar(l, s) = x]. *)
Definition covar_ls_assign (l s : N) (v : double) (c : t) : outcome t :=
  w ← vec_assign (theCovar c) (N.to_nat (covar_index 3 l s)) v;
  Ok (mk (base c) w).

End EcefCoordCovar.

(** ** LinearDecayCorrelationModel.h *)

(** Modelled from the spec: the declarations of [Parameters] and of the data
    members live in [LinearDecayCorrelationModel.h], which is not among the
    sources.  A curve is a pair of sequences, the correlation at each
    breakpoint and the time of each breakpoint; the default constructor
    leaves both empty, the other one copies its two arguments. *)
Record Parameters : Set := mkParameters {
  theInitialCorrsPerSegment : list double;
  theTimesPerSegment : list double
}.

Definition Parameters_default : Parameters := mkParameters [] [].

(** Modelled from the spec: the data members, from the same header.  The
    element type of [theGroupMapping] is the return type of
    [getCorrelationParameterGroup]. *)
Record LinearDecayCorrelationModel : Set := mkModel {
  theFormat : string;
  theGroupMapping : list Z;
  theCorrParams : list Parameters
}.

Abbreviation Model := LinearDecayCorrelationModel (only parsing).

(** A non-const member function: the outcome and the object afterwards. *)
Definition method (A : Type) : Type := Model -> outcome A * Model.

Definition method_ret {A} (a : A) : method A := fun m => (Ok a, m).

Definition method_bind {A B} (c : method A) (k : A -> method B) : method B :=
  fun m =>
    match c m with
    | (Ok a, m') => k a m'
    | (Throw e, m') => (Throw e, m')
    | (Undefined f, m') => (Undefined f, m')
    end.

(** A const member function called from a non-const one. *)
Definition call_const {A} (c : Model -> outcome A) : method A :=
  fun m => (c m, m).

(** An outcome that does not depend on the object. *)
Definition lift {A} (c : outcome A) : method A := fun m => (c, m).

(** Reading the object ([*this]). *)
Definition this : method Model := fun m => (Ok m, m).

Definition set_theGroupMapping (v : list Z) : method unit :=
  fun m => (Ok tt, mkModel (theFormat m) v (theCorrParams m)).

Definition set_theCorrParams (v : list Parameters) : method unit :=
  fun m => (Ok tt, mkModel (theFormat m) (theGroupMapping m) v).

Declare Scope method_scope.
Delimit Scope method_scope with method.
Notation "x <- c ;; k" := (method_bind c (fun x => k))
  (at level 100, c at next level, right associativity) : method_scope.
Notation "c ;;; k" := (method_bind c (fun _ => k))
  (at level 100, right associativity) : method_scope.

(** ** LinearDecayCorrelationModel.cpp *)

Definition LinearDecayCorrelationModel_new (numSMParams numCPGroups : nat) : Model :=
  {| theFormat := "LinearDecayCorrelation";
     theGroupMapping := replicate numSMParams (-1)%Z;
     theCorrParams := replicate numSMParams Parameters_default |}.

Definition getNumSensorModelParameters (m : Model) : nat :=
  length (theGroupMapping m).

Definition getNumCorrelationParameterGroups (m : Model) : nat :=
  length (theCorrParams m).

Definition checkSensorModelParameterIndex
    (smParamIndex : nat) (functionName : string) (m : Model) : outcome unit :=
  if (length (theGroupMapping m) <=? smParamIndex)%nat then
    Throw (mkError INDEX_OUT_OF_RANGE
             "Sensor model parameter index is out of range."
             ("csm::LinearDecayCorrelationModel::" ++ functionName))
  else Ok tt.

Definition checkParameterGroupIndex
    (groupIndex : nat) (functionName : string) (m : Model) : outcome unit :=
  if (length (theCorrParams m) <=? groupIndex)%nat then
    Throw (mkError INDEX_OUT_OF_RANGE
             "Correlation parameter group index is out of range."
             ("csm::LinearDecayCorrelationModel::" ++ functionName))
  else Ok tt.

Definition getCorrelationParameterGroup (smParamIndex : nat) (m : Model) : outcome Z :=
  checkSensorModelParameterIndex smParamIndex "getCorrelationParameterGroup" m ;;
  vec_at (theGroupMapping m) smParamIndex.

Definition setCorrelationParameterGroup (smParamIndex cpGroupIndex : nat) : method unit :=
  (call_const (checkSensorModelParameterIndex smParamIndex "setCorrelationParameterGroup") ;;;
   call_const (checkParameterGroupIndex cpGroupIndex "setCorrelationParameterGroup") ;;;
   m <- this ;;
   v <- lift (vec_assign (theGroupMapping m) smParamIndex (size_t_to_int cpGroupIndex)) ;;
   set_theGroupMapping v)%method.

Definition MODULE : string :=
  "csm::LinearDecayCorrelationModel::setCorrelationGroupParameters".

(** One iteration of [for(size_t i = 0; i < size; ++i)] in
    [setCorrelationGroupParameters]. *)
Definition setCorrelationGroupParameters_body
    (params : Parameters) (i : nat) : outcome unit :=
  corr ← vec_at (theInitialCorrsPerSegment params) i;
  time ← vec_at (theTimesPerSegment params) i;
  if Qlt_bool corr 0.0 || Qgt_bool corr 1.0 then
    Throw (mkError BOUNDS "Correlation must be in range [0..1]." MODULE)
  else if (0 <? i)%nat then
    prevCorr ← vec_at (theInitialCorrsPerSegment params) (i - 1);
    prevTime ← vec_at (theTimesPerSegment params) (i - 1);
    if Qgt_bool corr prevCorr then
      Throw (mkError BOUNDS "Correlation must be monotomically decreasing." MODULE)
    else if Qlt_bool time prevTime then
      Throw (mkError BOUNDS "Time must be monotomically increasing." MODULE)
    else Ok tt
  else Ok tt.

(** The loop itself, at index [i] with [n] iterations left. *)
Fixpoint setCorrelationGroupParameters_loop
    (params : Parameters) (n i : nat) : outcome unit :=
  match n with
  | O => Ok tt
  | S n' =>
    setCorrelationGroupParameters_body params i ;;
    setCorrelationGroupParameters_loop params n' (S i)
  end.

Definition setCorrelationGroupParameters
    (cpGroupIndex : nat) (params : Parameters) : method unit :=
  (call_const (checkParameterGroupIndex cpGroupIndex "setCorrelationGroupParameters") ;;;
   let size := length (theInitialCorrsPerSegment params) in
   (if negb (size =? length (theTimesPerSegment params))%nat then
      lift (Throw (mkError BOUNDS
                     "Must have equal number of correlations and times." MODULE))
    else method_ret tt) ;;;
   (if (1 <? size)%nat then
      lift (setCorrelationGroupParameters_loop params size 0)
    else method_ret tt) ;;;
   m <- this ;;
   v <- lift (vec_assign (theCorrParams m) cpGroupIndex params) ;;
   set_theCorrParams v)%method.

(** The overload taking the two sequences. *)
Definition setCorrelationGroupParameters_vectors
    (cpGroupIndex : nat) (initialCorrsPerSegment timesPerSegment : list double)
  : method unit :=
  setCorrelationGroupParameters cpGroupIndex
    (mkParameters initialCorrsPerSegment timesPerSegment).

(** The body of [for(size_t s = 1; s < size; ++s)] in
    [getCorrelationCoefficient], with [n] iterations left; the result is the
    value of [correlation] when the loop is left. *)
Fixpoint getCorrelationCoefficient_loop
    (cp : Parameters) (adt : double) (n s : nat)
    (prevCorr prevTime correlation : double) : outcome double :=
  match n with
  | O => Ok correlation
  | S n' =>
    corr ← vec_at (theInitialCorrsPerSegment cp) s;
    time ← vec_at (theTimesPerSegment cp) s;
    if Qle_bool adt time then
      if negb (Qeq_bool (time - prevTime) 0.0) then
        q ← fdiv (adt - prevTime) (time - prevTime);
        Ok (prevCorr + q * (corr - prevCorr))%Q
      else Ok correlation
    else getCorrelationCoefficient_loop cp adt n' (S s) corr time corr
  end.

(** [if (correlation < 0.0) ... else if (correlation > 1.0) ...]. *)
Definition clamp (correlation : double) : double :=
  if Qlt_bool correlation 0.0 then 0.0%Q
  else if Qgt_bool correlation 1.0 then 1.0%Q
  else correlation.

Definition getCorrelationCoefficient
    (cpGroupIndex : nat) (deltaTime : double) (m : Model) : outcome double :=
  checkParameterGroupIndex cpGroupIndex "getCorrelationCoefficient" m ;;
  cp ← vec_at (theCorrParams m) cpGroupIndex;
  let size := length (theInitialCorrsPerSegment cp) in
  let adt := fabs deltaTime in
  prevCorr ← vec_at (theInitialCorrsPerSegment cp) 0;
  prevTime ← vec_at (theTimesPerSegment cp) 0;
  correlation ← getCorrelationCoefficient_loop cp adt (size - 1) 1
                  prevCorr prevTime prevCorr;
  Ok (clamp correlation).

Definition getCorrelationGroupParameters
    (cpGroupIndex : nat) (m : Model) : outcome Parameters :=
  checkParameterGroupIndex cpGroupIndex "getCorrelationGroupParameters" m ;;
  vec_at (theCorrParams m) cpGroupIndex.

End csm.

Import csm.

(** ** The same member functions on IEEE 754 binary64 *)

(** The curve validation and the evaluation once more, with [double] as the
    primitive binary64 numbers: NaN, the infinities, overflow and rounding
    as the compiled code has them.  Every comparison with NaN is false, so
    [x != y] is [negb (x =? y)] and [x > y] is [y <? x]. *)
Module binary64.

Abbreviation double := float (only parsing).

Definition fabs (x : double) : double := abs x.

(** [x / y]; a zero divisor is reported instead of computed. *)
Definition fdiv (x y : double) : outcome double :=
  if (y =? 0)%float then Undefined DivisionByZero else Ok (x / y)%float.

Record Parameters : Set := mkParameters {
  theInitialCorrsPerSegment : list double;
  theTimesPerSegment : list double
}.

Definition Parameters_default : Parameters := mkParameters [] [].

Record LinearDecayCorrelationModel : Set := mkModel {
  theFormat : string;
  theGroupMapping : list Z;
  theCorrParams : list Parameters
}.

Abbreviation Model := LinearDecayCorrelationModel (only parsing).

Definition method (A : Type) : Type := Model -> outcome A * Model.

Definition method_ret {A} (a : A) : method A := fun m => (Ok a, m).

Definition method_bind {A B} (c : method A) (k : A -> method B) : method B :=
  fun m =>
    match c m with
    | (Ok a, m') => k a m'
    | (Throw e, m') => (Throw e, m')
    | (Undefined f, m') => (Undefined f, m')
    end.

Definition call_const {A} (c : Model -> outcome A) : method A :=
  fun m => (c m, m).

Definition lift {A} (c : outcome A) : method A := fun m => (c, m).

Definition this : method Model := fun m => (Ok m, m).

Definition set_theCorrParams (v : list Parameters) : method unit :=
  fun m => (Ok tt, mkModel (theFormat m) (theGroupMapping m) v).

Declare Scope method64_scope.
Delimit Scope method64_scope with method64.
Notation "x <- c ;; k" := (method_bind c (fun x => k))
  (at level 100, c at next level, right associativity) : method64_scope.
Notation "c ;;; k" := (method_bind c (fun _ => k))
  (at level 100, right associativity) : method64_scope.

Definition LinearDecayCorrelationModel_new (numSMParams numCPGroups : nat) : Model :=
  {| theFormat := "LinearDecayCorrelation";
     theGroupMapping := replicate numSMParams (-1)%Z;
     theCorrParams := replicate numSMParams Parameters_default |}.

Definition checkParameterGroupIndex
    (groupIndex : nat) (functionName : string) (m : Model) : outcome unit :=
  if (length (theCorrParams m) <=? groupIndex)%nat then
    Throw (mkError INDEX_OUT_OF_RANGE
             "Correlation parameter group index is out of range."
             ("csm::LinearDecayCorrelationModel::" ++ functionName))
  else Ok tt.

(** One iteration of [for(size_t i = 0; i < size; ++i)] in
    [setCorrelationGroupParameters]. *)
Definition setCorrelationGroupParameters_body
    (params : Parameters) (i : nat) : outcome unit :=
  corr ← vec_at (theInitialCorrsPerSegment params) i;
  time ← vec_at (theTimesPerSegment params) i;
  if (corr <? 0)%float || (1 <? corr)%float then
    Throw (mkError BOUNDS "Correlation must be in range [0..1]." MODULE)
  else if (0 <? i)%nat then
    prevCorr ← vec_at (theInitialCorrsPerSegment params) (i - 1);
    prevTime ← vec_at (theTimesPerSegment params) (i - 1);
    if (prevCorr <? corr)%float then
      Throw (mkError BOUNDS "Correlation must be monotomically decreasing." MODULE)
    else if (time <? prevTime)%float then
      Throw (mkError BOUNDS "Time must be monotomically increasing." MODULE)
    else Ok tt
  else Ok tt.

Fixpoint setCorrelationGroupParameters_loop
    (params : Parameters) (n i : nat) : outcome unit :=
  match n with
  | O => Ok tt
  | S n' =>
    setCorrelationGroupParameters_body params i ;;
    setCorrelationGroupParameters_loop params n' (S i)
  end.

Definition setCorrelationGroupParameters
    (cpGroupIndex : nat) (params : Parameters) : method unit :=
  (call_const (checkParameterGroupIndex cpGroupIndex "setCorrelationGroupParameters") ;;;
   let size := length (theInitialCorrsPerSegment params) in
   (if negb (size =? length (theTimesPerSegment params))%nat then
      lift (Throw (mkError BOUNDS
                     "Must have equal number of correlations and times." MODULE))
    else method_ret tt) ;;;
   (if (1 <? size)%nat then
      lift (setCorrelationGroupParameters_loop params size 0)
    else method_ret tt) ;;;
   m <- this ;;
   v <- lift (vec_assign (theCorrParams m) cpGroupIndex params) ;;
   set_theCorrParams v)%method64.

(** The body of [for(size_t s = 1; s < size; ++s)] in
    [getCorrelationCoefficient], with [n] iterations left. *)
Fixpoint getCorrelationCoefficient_loop
    (cp : Parameters) (adt : double) (n s : nat)
    (prevCorr prevTime correlation : double) : outcome double :=
  match n with
  | O => Ok correlation
  | S n' =>
    corr ← vec_at (theInitialCorrsPerSegment cp) s;
    time ← vec_at (theTimesPerSegment cp) s;
    if (adt <=? time)%float then
      if negb (time - prevTime =? 0)%float then
        q ← fdiv (adt - prevTime)%float (time - prevTime)%float;
        Ok (prevCorr + q * (corr - prevCorr))%float
      else Ok correlation
    else getCorrelationCoefficient_loop cp adt n' (S s) corr time corr
  end.

(** [if (correlation < 0.0) ... else if (correlation > 1.0) ...]. *)
Definition clamp (correlation : double) : double :=
  if (correlation <? 0)%float then 0%float
  else if (1 <? correlation)%float then 1%float
  else correlation.

Definition getCorrelationCoefficient
    (cpGroupIndex : nat) (deltaTime : double) (m : Model) : outcome double :=
  checkParameterGroupIndex cpGroupIndex "getCorrelationCoefficient" m ;;
  cp ← vec_at (theCorrParams m) cpGroupIndex;
  let size := length (theInitialCorrsPerSegment cp) in
  let adt := fabs deltaTime in
  prevCorr ← vec_at (theInitialCorrsPerSegment cp) 0;
  prevTime ← vec_at (theTimesPerSegment cp) 0;
  correlation ← getCorrelationCoefficient_loop cp adt (size - 1) 1
                  prevCorr prevTime prevCorr;
  Ok (clamp correlation).

(** *** Curves the validation accepts *)

(** What one iteration of the validation loop lets pass at index [j]: each
    of its comparisons is false. *)
Definition accepted_at (p : Parameters) (j : nat) : Prop :=
  exists corr time,
    theInitialCorrsPerSegment p !! j = Some corr /\
    theTimesPerSegment p !! j = Some time /\
    (corr <? 0)%float = false /\ (1 <? corr)%float = false /\
    forall prevCorr prevTime, (0 < j)%nat ->
      theInitialCorrsPerSegment p !! (j - 1)%nat = Some prevCorr ->
      theTimesPerSegment p !! (j - 1)%nat = Some prevTime ->
      (prevCorr <? corr)%float = false /\ (time <? prevTime)%float = false.

(** *** Curves used as examples *)

(** Times [-2^1023, 2^1023] with correlations [1.0, 0.0]: all finite, and
    the width of the segment overflows. *)
Definition curve_overflow : Parameters :=
  mkParameters [1; 0]%float [-0x1p1023; 0x1p1023]%float.

(** Times [0, 10] with correlations NaN. *)
Definition curve_nan : Parameters :=
  mkParameters [nan; nan] [0; 10]%float.

(** One breakpoint, time 0 and correlation 5.0. *)
Definition curve_single_5 : Parameters :=
  mkParameters [5]%float [0]%float.

(** Times [0, 1] with correlations [0.5, 5.0]. *)
Definition curve_pair_5 : Parameters :=
  mkParameters [0.5; 5]%float [0; 1]%float.

(** Times [5, 5] with correlations [0.8, 0.8], 0.8 being the nearest
    [double], [0x1.999999999999ap-1]. *)
Definition curve_5_5 : Parameters :=
  mkParameters [0x1.999999999999ap-1; 0x1.999999999999ap-1]%float [5; 5]%float.

(** Times [0, 10, 10] with correlations [1.0, 0.1, 0.05], as the nearest
    [double]s [0x1.999999999999ap-4] and [0x1.999999999999ap-5]: the zero
    width segment is the second one. *)
Definition curve_0_10_10 : Parameters :=
  mkParameters [1; 0x1.999999999999ap-4; 0x1.999999999999ap-5]%float
               [0; 10; 10]%float.

End binary64.

Local Open Scope Q_scope.

(** ** States a caller can reach *)

(** The objects obtained from the constructor by calls of the mutating member
    functions, successful or not.  The const member functions leave the
    object as it is, and the overload of [setCorrelationGroupParameters]
    that takes two vectors is a call of the other one. *)
Inductive reachable (numSMParams numCPGroups : nat) : Model -> Prop :=
| reachable_new :
    reachable numSMParams numCPGroups
      (LinearDecayCorrelationModel_new numSMParams numCPGroups)
| reachable_setCorrelationParameterGroup m smParamIndex cpGroupIndex :
    reachable numSMParams numCPGroups m ->
    reachable numSMParams numCPGroups
      (snd (setCorrelationParameterGroup smParamIndex cpGroupIndex m))
| reachable_setCorrelationGroupParameters m cpGroupIndex params :
    reachable numSMParams numCPGroups m ->
    reachable numSMParams numCPGroups
      (snd (setCorrelationGroupParameters cpGroupIndex params m)).

(** ** Curves the validation accepts *)

(** What one iteration of the loop in [setCorrelationGroupParameters] lets
    pass at index [j]: the correlation is in [[0,1]] and, after the first
    breakpoint, neither the correlation went up nor the time went back. *)
Definition accepted_at (p : Parameters) (j : nat) : Prop :=
  exists corr time,
    theInitialCorrsPerSegment p !! j = Some corr /\
    theTimesPerSegment p !! j = Some time /\
    0 <= corr <= 1 /\
    forall prevCorr prevTime, (0 < j)%nat ->
      theInitialCorrsPerSegment p !! (j - 1)%nat = Some prevCorr ->
      theTimesPerSegment p !! (j - 1)%nat = Some prevTime ->
      corr <= prevCorr /\ prevTime <= time.

(** What [setCorrelationGroupParameters] lets pass as a whole: as many times
    as correlations and, for two breakpoints or more, every breakpoint
    accepted.  The empty curve of a fresh object passes as well. *)
Definition well_formed (p : Parameters) : Prop :=
  length (theInitialCorrsPerSegment p) = length (theTimesPerSegment p) /\
  ((1 < length (theInitialCorrsPerSegment p))%nat ->
   forall j, (j < length (theInitialCorrsPerSegment p))%nat -> accepted_at p j).

(** ** Curves used as examples *)

(** Times [0, 10, 20] with correlations [1.0, 0.5, 0.0]. *)
Definition curve_0_10_20 : Parameters :=
  mkParameters [1.0; 0.5; 0.0] [0; 10; 20].

(** Times [5, 5] with correlations [0.8, 0.8]: one segment of zero width. *)
Definition curve_5_5 : Parameters :=
  mkParameters [0.8; 0.8] [5; 5].

(** Times [10, 20] with correlations [0.5, 0.0]: the first breakpoint is not
    at time 0 and the first correlation is below 1. *)
Definition curve_10_20 : Parameters :=
  mkParameters [0.5; 0.0] [10; 20].

(** ** The index checks *)

Lemma checkSensorModelParameterIndex_spec i f m :
  (i < length (theGroupMapping m))%nat /\ checkSensorModelParameterIndex i f m = Ok tt
  \/ (length (theGroupMapping m) <= i)%nat /\
     raises (checkSensorModelParameterIndex i f m) INDEX_OUT_OF_RANGE.
Proof.
  unfold checkSensorModelParameterIndex.
  destruct (Nat.leb_spec (length (theGroupMapping m)) i); [right | left]; done.
Qed.

Lemma checkParameterGroupIndex_spec g f m :
  (g < length (theCorrParams m))%nat /\ checkParameterGroupIndex g f m = Ok tt
  \/ (length (theCorrParams m) <= g)%nat /\
     raises (checkParameterGroupIndex g f m) INDEX_OUT_OF_RANGE.
Proof.
  unfold checkParameterGroupIndex.
  destruct (Nat.leb_spec (length (theCorrParams m)) g); [right | left]; done.
Qed.

(** ** The two mutating member functions *)

(** [setCorrelationParameterGroup] either throws and leaves the object as it
    was, or overwrites one entry of the mapping. *)
Lemma setCorrelationParameterGroup_cases i g m :
  match setCorrelationParameterGroup i g m with
  | (Ok _, m') =>
      (i < length (theGroupMapping m))%nat /\ (g < length (theCorrParams m))%nat /\
      m' = mkModel (theFormat m) (<[i:=size_t_to_int g]> (theGroupMapping m))
                   (theCorrParams m)
  | (Throw e, m') =>
      m' = m /\ getError e = INDEX_OUT_OF_RANGE /\
      ((length (theGroupMapping m) <= i)%nat \/ (length (theCorrParams m) <= g)%nat)
  | (Undefined _, _) => False
  end.
Proof.
  unfold setCorrelationParameterGroup, method_bind, call_const, this, lift,
    set_theGroupMapping, vec_assign.
  destruct (checkSensorModelParameterIndex_spec i "setCorrelationParameterGroup" m)
    as [[Hi ->] | [Hi Hr]].
  - destruct (checkParameterGroupIndex_spec g "setCorrelationParameterGroup" m)
      as [[Hg ->] | [Hg Hr]].
    + destruct (Nat.ltb_spec i (length (theGroupMapping m))); [done | lia].
    + destruct (checkParameterGroupIndex _ _ _); try done. auto.
  - destruct (checkSensorModelParameterIndex _ _ _); try done. auto.
Qed.

(** ** Comparisons on [double] *)

Lemma Qlt_bool_true x y : Qlt_bool x y = true <-> x < y.
Proof.
  unfold Qlt_bool. rewrite Qlt_alt. destruct (x ?= y); split; congruence.
Qed.

Lemma Qlt_bool_false x y : Qlt_bool x y = false <-> y <= x.
Proof.
  rewrite <- Qle_bool_iff, <- not_true_iff_false, Qlt_bool_true.
  rewrite Qle_bool_iff. split; [apply Qnot_lt_le | apply Qle_not_lt].
Qed.

Lemma Qgt_bool_true x y : Qgt_bool x y = true <-> y < x.
Proof. apply Qlt_bool_true. Qed.

Lemma Qgt_bool_false x y : Qgt_bool x y = false <-> x <= y.
Proof. apply Qlt_bool_false. Qed.

Lemma in_range_test corr :
  Qlt_bool corr 0.0 || Qgt_bool corr 1.0 = false <-> 0 <= corr <= 1.
Proof.
  rewrite orb_false_iff, Qlt_bool_false, Qgt_bool_false.
  assert (E0 : 0.0 == 0) by reflexivity.
  assert (E1 : 1.0 == 1) by reflexivity.
  by rewrite E0, E1.
Qed.

Lemma clamp_in_range x : 0 <= x <= 1 -> clamp x = x.
Proof.
  intros H%in_range_test. apply orb_false_iff in H as [H0 H1].
  unfold clamp. by rewrite H0, H1.
Qed.

(** ** Reading a vector *)

Lemma vec_at_Some {A} (v : list A) i x : v !! i = Some x -> vec_at v i = Ok x.
Proof. unfold vec_at. by intros ->. Qed.

Lemma vec_at_lt {A} (v : list A) i :
  (i < length v)%nat -> exists x, v !! i = Some x /\ vec_at v i = Ok x.
Proof.
  intros [x Hx]%lookup_lt_is_Some_2. exists x. split; [done | by apply vec_at_Some].
Qed.

(** ** The validation loop *)

(** One iteration at an index inside a curve with as many times as
    correlations: it reads inside the two vectors, returns when the
    breakpoint is accepted and otherwise throws [BOUNDS]. *)
Lemma setCorrelationGroupParameters_body_cases p i :
  length (theInitialCorrsPerSegment p) = length (theTimesPerSegment p) ->
  (i < length (theInitialCorrsPerSegment p))%nat ->
  match setCorrelationGroupParameters_body p i with
  | Ok _ => accepted_at p i
  | Throw e => getError e = BOUNDS /\ ~ accepted_at p i
  | Undefined _ => False
  end.
Proof.
  intros Hlen Hi. unfold setCorrelationGroupParameters_body.
  destruct (vec_at_lt (theInitialCorrsPerSegment p) i) as (corr & Hc & ->); [lia |].
  destruct (vec_at_lt (theTimesPerSegment p) i) as (time & Ht & ->); [lia |].
  cbn.
  destruct (Qlt_bool corr 0.0 || Qgt_bool corr 1.0) eqn:Hrange.
  { split; [done |]. intros (c & t & Hc' & _ & Hr & _).
    apply in_range_test in Hr. congruence. }
  apply in_range_test in Hrange.
  destruct i as [| i]; cbn.
  { exists corr, time. do 3 (split; [done |]). intros; lia. }
  replace (i - 0)%nat with i by lia.
  destruct (vec_at_lt (theInitialCorrsPerSegment p) i) as (prevCorr & Hpc & ->); [lia |].
  destruct (vec_at_lt (theTimesPerSegment p) i) as (prevTime & Hpt & ->); [lia |].
  cbn.
  destruct (Qgt_bool corr prevCorr) eqn:Hcorr.
  { split; [done |]. intros (c & t & Hc' & Ht' & _ & Hm).
    destruct (Hm prevCorr prevTime) as [Hm1 _]; cbn; try done; try lia.
    { by replace (i - 0)%nat with i by lia. }
    { by replace (i - 0)%nat with i by lia. }
    apply Qgt_bool_true in Hcorr. apply (Qlt_not_le _ _ Hcorr). congruence. }
  destruct (Qlt_bool time prevTime) eqn:Htime.
  { split; [done |]. intros (c & t & Hc' & Ht' & _ & Hm).
    destruct (Hm prevCorr prevTime) as [_ Hm2]; cbn; try done; try lia.
    { by replace (i - 0)%nat with i by lia. }
    { by replace (i - 0)%nat with i by lia. }
    apply Qlt_bool_true in Htime. apply (Qlt_not_le _ _ Htime). congruence. }
  exists corr, time. do 3 (split; [done |]). intros pc pt _ Hpc' Hpt'. split.
  - replace (S i - 1)%nat with i in * by lia.
    apply Qgt_bool_false in Hcorr. congruence.
  - replace (S i - 1)%nat with i in * by lia.
    apply Qlt_bool_false in Htime. congruence.
Qed.

Lemma setCorrelationGroupParameters_loop_cases p n i :
  length (theInitialCorrsPerSegment p) = length (theTimesPerSegment p) ->
  (i + n = length (theInitialCorrsPerSegment p))%nat ->
  match setCorrelationGroupParameters_loop p n i with
  | Ok _ => forall j, (i <= j < i + n)%nat -> accepted_at p j
  | Throw e =>
      getError e = BOUNDS /\
      exists j, (i <= j < i + n)%nat /\ ~ accepted_at p j
  | Undefined _ => False
  end.
Proof.
  intros Hlen. revert i.
  induction n as [| n IH]; intros i Hi; cbn [setCorrelationGroupParameters_loop].
  - intros j Hj. lia.
  - pose proof (setCorrelationGroupParameters_body_cases p i Hlen) as Hb.
    destruct (setCorrelationGroupParameters_body p i) as [[] | e | f]; cbn.
    + specialize (IH (S i)).
      destruct (setCorrelationGroupParameters_loop p n (S i)) as [[] | e | f].
      * intros j Hj. destruct (decide (j = i)) as [-> | Hne].
        -- apply Hb. lia.
        -- apply IH; lia.
      * destruct IH as (He & j & Hj & Hna); [lia |].
        split; [done |]. exists j. split; [lia | done].
      * apply IH. lia.
    + destruct Hb as [He Hna]; [lia |]. split; [done |]. exists i. split; [lia | done].
    + apply Hb. lia.
Qed.

(** [setCorrelationGroupParameters] either throws and leaves the object as
    it was, or overwrites the curve of one group with a curve that passed
    the checks. *)
Lemma setCorrelationGroupParameters_cases g p m :
  match setCorrelationGroupParameters g p m with
  | (Ok _, m') =>
      (g < length (theCorrParams m))%nat /\
      well_formed p /\
      m' = mkModel (theFormat m) (theGroupMapping m) (<[g:=p]> (theCorrParams m))
  | (Throw e, m') =>
      m' = m /\
      (getError e = INDEX_OUT_OF_RANGE /\ (length (theCorrParams m) <= g)%nat
       \/ getError e = BOUNDS /\ (g < length (theCorrParams m))%nat /\ ~ well_formed p)
  | (Undefined _, _) => False
  end.
Proof.
  unfold setCorrelationGroupParameters, method_bind, call_const, this, lift,
    set_theCorrParams, vec_assign, method_ret.
  destruct (checkParameterGroupIndex_spec g "setCorrelationGroupParameters" m)
    as [[Hg ->] | [Hg Hr]].
  2: { destruct (checkParameterGroupIndex _ _ _); try done. auto. }
  destruct (Nat.eqb_spec (length (theInitialCorrsPerSegment p))
              (length (theTimesPerSegment p))) as [Hlen | Hlen]; cbn [negb].
  2: { split; [done |]. right. do 2 (split; [done |]). by intros [? _]. }
  destruct (Nat.ltb_spec 1 (length (theInitialCorrsPerSegment p))) as [Hsize | Hsize].
  - pose proof (setCorrelationGroupParameters_loop_cases p
                  (length (theInitialCorrsPerSegment p)) 0 Hlen eq_refl) as Hl.
    destruct (setCorrelationGroupParameters_loop _ _ _) as [[] | e | f]; [| | done].
    + destruct (Nat.ltb_spec g (length (theCorrParams m))); [| lia].
      split; [done |]. split; [| done]. split; [done |].
      intros _ j Hj. apply Hl. lia.
    + destruct Hl as (He & j & Hj & Hna). split; [done |]. right.
      do 2 (split; [done |]). intros [_ Hwf]. apply Hna, Hwf; [done | lia].
  - destruct (Nat.ltb_spec g (length (theCorrParams m))); [| lia].
    split; [done |]. split; [| done]. split; [done |]. intros; lia.
Qed.

Lemma setCorrelationGroupParameters_vectors_eq g corrs times m :
  setCorrelationGroupParameters_vectors g corrs times m =
  setCorrelationGroupParameters g (mkParameters corrs times) m.
Proof. reflexivity. Qed.

(** Case analysis on the call of a mutating member function in the goal,
    with what its case lemma says about the outcome as [Hc]. *)
Ltac case_call Hc :=
  match goal with
  | |- context [setCorrelationParameterGroup ?i ?g ?m] =>
      pose proof (setCorrelationParameterGroup_cases i g m) as Hc;
      destruct (setCorrelationParameterGroup i g m) as [[[] | ? | ?] ?]
  | |- context [setCorrelationGroupParameters ?g ?p ?m] =>
      pose proof (setCorrelationGroupParameters_cases g p m) as Hc;
      destruct (setCorrelationGroupParameters g p m) as [[[] | ? | ?] ?]
  end.

(** ** Invariants of the reachable objects *)

(** Both vectors keep the length the constructor gave them, and that length
    is [numSMParams] for both. *)
Lemma reachable_sizes numSMParams numCPGroups m :
  reachable numSMParams numCPGroups m ->
  length (theGroupMapping m) = numSMParams /\
  length (theCorrParams m) = numSMParams.
Proof.
  induction 1 as [| m i g _ [IH1 IH2] | m g p _ [IH1 IH2]].
  - cbn. by rewrite !length_replicate.
  - case_call Hc; cbn; [| by destruct Hc as (-> & _) | done].
    destruct Hc as (_ & _ & ->). cbn. by rewrite length_insert.
  - case_call Hc; cbn; [| by destruct Hc as (-> & _) | done].
    destruct Hc as (_ & _ & ->). cbn. by rewrite length_insert.
Qed.

Lemma well_formed_default : well_formed Parameters_default.
Proof. split; [done |]. cbn. lia. Qed.

(** Every curve held by a reachable object passed the checks. *)
Lemma reachable_well_formed numSMParams numCPGroups m g p :
  reachable numSMParams numCPGroups m ->
  theCorrParams m !! g = Some p ->
  well_formed p.
Proof.
  intros Hr. revert g p.
  induction Hr as [| m i k _ IH | m k q _ IH]; intros g p.
  - cbn. intros [-> _]%lookup_replicate. apply well_formed_default.
  - case_call Hc; cbn; [| destruct Hc as (-> & _); apply IH | done].
    destruct Hc as (_ & _ & ->). apply IH.
  - case_call Hc; cbn; [| destruct Hc as (-> & _); apply IH | done].
    destruct Hc as (Hk & Hwf & ->). cbn.
    destruct (decide (k = g)) as [-> | Hne].
    + rewrite list_lookup_insert_eq by done. by intros [= <-].
    + rewrite list_lookup_insert_ne by done. apply IH.
Qed.

(** ** The evaluation *)

Lemma fabs_opp t : fabs (- t) = fabs t.
Proof. destruct t as [a b]. unfold fabs, Qabs, Qopp. cbn. by rewrite Z.abs_opp. Qed.

(** The division of the interpolation is only reached behind its guard. *)
Lemma fdiv_guarded x y : negb (Qeq_bool y 0.0) = true -> fdiv x y = Ok (x / y).
Proof.
  intros H%negb_true_iff. unfold fdiv.
  replace (Qeq_bool y 0) with (Qeq_bool y 0.0); [by rewrite H |].
  apply Qeqb_comp; reflexivity.
Qed.

(** On a curve with as many times as correlations the loop of
    [getCorrelationCoefficient] reads inside the two vectors and leaves
    [correlation] with a value. *)
Lemma getCorrelationCoefficient_loop_total cp adt n s prevCorr prevTime correlation :
  length (theInitialCorrsPerSegment cp) = length (theTimesPerSegment cp) ->
  (s + n <= length (theInitialCorrsPerSegment cp))%nat ->
  exists r,
    getCorrelationCoefficient_loop cp adt n s prevCorr prevTime correlation = Ok r.
Proof.
  intros Hlen. revert s prevCorr prevTime correlation.
  induction n as [| n IH]; intros s pc pt c Hs; cbn [getCorrelationCoefficient_loop].
  - by exists c.
  - destruct (vec_at_lt (theInitialCorrsPerSegment cp) s) as (corr & Hc & ->); [lia |].
    destruct (vec_at_lt (theTimesPerSegment cp) s) as (time & Ht & ->); [lia |].
    cbn. destruct (Qle_bool adt time).
    + destruct (negb (Qeq_bool (time - pt) 0.0)) eqn:Hg.
      * rewrite fdiv_guarded by done. cbn. eauto.
      * eauto.
    + apply IH. lia.
Qed.

(** [getCorrelationCoefficient] on a group that holds a non-empty curve. *)
Lemma getCorrelationCoefficient_stored g deltaTime m cp c0 t0 :
  theCorrParams m !! g = Some cp ->
  theInitialCorrsPerSegment cp !! 0%nat = Some c0 ->
  theTimesPerSegment cp !! 0%nat = Some t0 ->
  getCorrelationCoefficient g deltaTime m =
  (correlation ← getCorrelationCoefficient_loop cp (fabs deltaTime)
                   (length (theInitialCorrsPerSegment cp) - 1) 1 c0 t0 c0;
   Ok (clamp correlation)).
Proof.
  intros Hcp Hc0 Ht0. unfold getCorrelationCoefficient.
  destruct (checkParameterGroupIndex_spec g "getCorrelationCoefficient" m)
    as [[Hg ->] | [Hg _]].
  2: { apply lookup_lt_Some in Hcp. lia. }
  rewrite (vec_at_Some _ _ _ Hcp). cbn [mbind outcome_bind].
  by rewrite (vec_at_Some _ _ _ Hc0), (vec_at_Some _ _ _ Ht0).
Qed.

(** A well-formed non-empty curve has a first correlation and a first time. *)
Lemma well_formed_first cp :
  well_formed cp -> theInitialCorrsPerSegment cp <> [] ->
  exists c0 t0,
    theInitialCorrsPerSegment cp !! 0%nat = Some c0 /\
    theTimesPerSegment cp !! 0%nat = Some t0.
Proof.
  intros [Hlen _] Hne.
  destruct (theInitialCorrsPerSegment cp) as [| c0 cs]; [done |].
  destruct (theTimesPerSegment cp) as [| t0 ts]; [done |]. eauto.
Qed.

(** ** Comparisons and the clamp, continued *)

Lemma Qle_bool_false x y : Qle_bool x y = false <-> y < x.
Proof.
  rewrite <- not_true_iff_false, Qle_bool_iff.
  split; [apply Qnot_le_lt | apply Qlt_not_le].
Qed.

(** [clamp] leaves a value alone when it equals one inside [[0, 1]], and cuts
    a value of at least 1 back to 1. *)
Lemma clamp_eq_in_range x y : x == y -> 0 <= y <= 1 -> clamp x == y.
Proof.
  intros Hxy Hy. rewrite clamp_in_range; [done |]. by rewrite Hxy.
Qed.

Lemma clamp_ge_1 x : 1 <= x -> clamp x == 1.
Proof.
  intros Hx. unfold clamp.
  destruct (Qlt_bool x 0.0) eqn:H0.
  { apply Qlt_bool_true in H0. assert (E0 : 0.0 == 0) by reflexivity.
    rewrite E0 in H0. lra. }
  destruct (Qgt_bool x 1.0) eqn:H1; [reflexivity |].
  apply Qgt_bool_false in H1. assert (E1 : 1.0 == 1) by reflexivity.
  rewrite E1 in H1. lra.
Qed.

(** ** Counts and bounds *)

(** The constructor sizes both vectors with [numSMParams]; [numCPGroups] is
    not used. *)
Lemma LinearDecayCorrelationModel_new_counts numSMParams numCPGroups :
  getNumSensorModelParameters
    (LinearDecayCorrelationModel_new numSMParams numCPGroups) = numSMParams /\
  getNumCorrelationParameterGroups
    (LinearDecayCorrelationModel_new numSMParams numCPGroups) = numSMParams.
Proof.
  unfold getNumSensorModelParameters, getNumCorrelationParameterGroups. cbn.
  by rewrite !length_replicate.
Qed.

(** On every reachable object the bound of the group index check is
    [numSMParams], the length the constructor gave [theCorrParams]. *)
Lemma group_index_bound numSMParams numCPGroups m g :
  reachable numSMParams numCPGroups m ->
  raises (getCorrelationGroupParameters g m) INDEX_OUT_OF_RANGE <->
  (numSMParams <= g)%nat.
Proof.
  intros [_ Hsize]%reachable_sizes. unfold getCorrelationGroupParameters.
  destruct (checkParameterGroupIndex_spec g "getCorrelationGroupParameters" m)
    as [[Hg ->] | [Hg Hr]].
  - cbn [mbind outcome_bind].
    destruct (vec_at_lt (theCorrParams m) g Hg) as (p & _ & ->).
    split; [done | lia].
  - destruct (checkParameterGroupIndex _ _ _); try done.
    split; [lia | done].
Qed.

(** ** The evaluation in binary64 *)




(** At the first breakpoint and to its left, in binary64: the curve with
    times [10, 20] and correlations [0.5, 0.0] gives 0.5 at the time 10 and
    1.0 at the time 0, as on the exact numbers; with NaN as second
    correlation the curve is accepted and gives NaN at the time 10. *)
Lemma binary64_first_breakpoint_examples :
  let new := binary64.LinearDecayCorrelationModel_new 1 1 in
  let sloped := binary64.mkParameters [0.5; 0]%float [10; 20]%float in
  let with_nan := binary64.mkParameters [0.5; nan]%float [10; 20]%float in
  binary64.getCorrelationCoefficient 0 (-10)
    (snd (binary64.setCorrelationGroupParameters 0 sloped new)) = Ok 0.5%float /\
  binary64.getCorrelationCoefficient 0 0
    (snd (binary64.setCorrelationGroupParameters 0 sloped new)) = Ok 1%float /\
  fst (binary64.setCorrelationGroupParameters 0 with_nan new) = Ok tt /\
  binary64.getCorrelationCoefficient 0 10
    (snd (binary64.setCorrelationGroupParameters 0 with_nan new)) = Ok nan.
Proof. cbv zeta. repeat split; reflexivity. Qed.

(** * The claims *)

(** C1.  A model constructed with [numSMParams = 2] and [numCPGroups = 5]
    reports 2 correlation parameter groups, not the 5 it was constructed
    with: the group count is the number of sensor model parameters. *)
Theorem C1_group_count_of_new_2_5 :
  getNumCorrelationParameterGroups (LinearDecayCorrelationModel_new 2 5) = 2%nat /\
  getNumCorrelationParameterGroups (LinearDecayCorrelationModel_new 2 5) <> 5%nat.
Proof. split; [reflexivity | discriminate]. Qed.

(** C2, as stated, fails.  The group holds the accepted curve with times
    [10, 20] and correlations [0.5, 0.0]; the time 0 has a magnitude below the
    first breakpoint's time 10, yet the coefficient is 1.0, not the first
    correlation 0.5: the first segment is extended to the left of the first
    breakpoint and the result is clamped. *)
Lemma C2_counterexample_left_of_first_breakpoint :
  let m := snd (setCorrelationGroupParameters 0 curve_10_20
                  (LinearDecayCorrelationModel_new 1 1)) in
  fst (setCorrelationGroupParameters 0 curve_10_20
         (LinearDecayCorrelationModel_new 1 1)) = Ok tt /\
  theCorrParams m !! 0%nat = Some curve_10_20 /\
  fabs 0 <= 10 /\
  returns (getCorrelationCoefficient 0 0 m) (fun r => r == 1.0) /\
  ~ returns (getCorrelationCoefficient 0 0 m) (fun r => r == 0.5).
Proof.
  cbv zeta. split; [reflexivity |]. split; [reflexivity |].
  split; [discriminate |]. split; [vm_compute; reflexivity |].
  vm_compute. discriminate.
Qed.

(** C2, as the code has it.  On a reachable object, for a group that holds a
    non-empty curve whose first correlation lies in [[0, 1]], and a time whose
    magnitude is at most the first breakpoint's time: when the second
    breakpoint, if there is one, has a correlation that is at most the first
    and a time that is after the first or at distance zero from it (so that
    neither is NaN and the distance is not the difference of two infinite
    times), the coefficient is the first correlation provided the magnitude
    equals the first time, or the first correlation is 1, or the curve has no
    second breakpoint, or the second breakpoint repeats the first correlation
    or the first time.  On these paths every operation of the code is exact
    in binary64 or is cut back by the clamp. *)
Theorem C2_first_correlation numSMParams numCPGroups m g cp c0 t0 deltaTime :
  reachable numSMParams numCPGroups m ->
  theCorrParams m !! g = Some cp ->
  theInitialCorrsPerSegment cp !! 0%nat = Some c0 ->
  theTimesPerSegment cp !! 0%nat = Some t0 ->
  0 <= c0 <= 1 ->
  fabs deltaTime <= t0 ->
  (forall c1 t1,
     theInitialCorrsPerSegment cp !! 1%nat = Some c1 ->
     theTimesPerSegment cp !! 1%nat = Some t1 ->
     c1 <= c0 /\ (t0 < t1 \/ t1 - t0 == 0) /\
     (fabs deltaTime == t0 \/ c0 == 1 \/ c1 == c0 \/ t1 - t0 == 0)) ->
  returns (getCorrelationCoefficient g deltaTime m) (fun r => r == c0).
Proof.
  intros Hr Hcp Hc0 Ht0 Hrange Hadt Hsecond.
  destruct (reachable_well_formed _ _ _ _ _ Hr Hcp) as [Hlen _].
  rewrite (getCorrelationCoefficient_stored _ _ _ _ _ _ Hcp Hc0 Ht0).
  set (adt := fabs deltaTime) in *.
  destruct (theInitialCorrsPerSegment cp !! 1%nat) as [c1 |] eqn:Hc1.
  2: { apply lookup_ge_None in Hc1. apply lookup_lt_Some in Hc0.
       replace (length (theInitialCorrsPerSegment cp) - 1)%nat with 0%nat by lia.
       cbn. by rewrite clamp_in_range. }
  pose proof (lookup_lt_Some _ _ _ Hc1) as Hsize.
  destruct (lookup_lt_is_Some_2 (theTimesPerSegment cp) 1) as [t1 Ht1]; [lia |].
  destruct (Hsecond c1 t1 eq_refl Ht1) as (Hc & Ht & Hcase).
  destruct (length (theInitialCorrsPerSegment cp) - 1)%nat as [| n] eqn:Hn; [lia |].
  cbn [getCorrelationCoefficient_loop].
  rewrite (vec_at_Some _ _ _ Hc1), (vec_at_Some _ _ _ Ht1). cbn [mbind outcome_bind].
  assert (Hle : Qle_bool adt t1 = true) by (apply Qle_bool_iff; lra).
  rewrite Hle.
  destruct (negb (Qeq_bool (t1 - t0) 0.0)) eqn:Hguard.
  2: { cbn. by rewrite clamp_in_range. }
  rewrite fdiv_guarded by done. cbn.
  apply negb_true_iff, Qeq_bool_neq in Hguard.
  assert (E0 : 0.0 == 0) by reflexivity. rewrite E0 in Hguard.
  assert (Hpos : 0 < t1 - t0) by lra.
  assert (Hinv : 0 < / (t1 - t0)) by by apply Qinv_lt_0_compat.
  unfold Qdiv. set (i := / (t1 - t0)) in *.
  destruct Hcase as [Heq | [Hone | [Hflat | Hzero]]]; [| | | lra].
  - apply clamp_eq_in_range; [| done]. rewrite Heq. ring.
  - rewrite Hone at 3. apply clamp_ge_1.
    assert (0 <= (t0 - adt) * i) by (apply Qmult_le_0_compat; lra).
    assert (0 <= (t0 - adt) * i * (c0 - c1)) by (apply Qmult_le_0_compat; lra).
    lra.
  - apply clamp_eq_in_range; [| done]. rewrite Hflat. ring.
Qed.

Lemma C2_first_correlation_witness :
  let m := snd (setCorrelationGroupParameters 0 curve_10_20
                  (LinearDecayCorrelationModel_new 1 1)) in
  returns (getCorrelationCoefficient 0 (- 10) m) (fun r => r == 0.5).
Proof.
  cbv zeta.
  apply (C2_first_correlation 1 1 _ 0%nat curve_10_20 0.5 10 (- 10)).
  - apply reachable_setCorrelationGroupParameters, reachable_new.
  - reflexivity.
  - reflexivity.
  - reflexivity.
  - split; discriminate.
  - discriminate.
  - intros c1 t1 [= <-] [= <-].
    split; [discriminate |]. split; [left; reflexivity |]. left. reflexivity.
Defined.

(** C3.  In binary64, on a fresh object with one group:
    [setCorrelationGroupParameters] installs the curve with the single
    breakpoint of time 0 and correlation 5.0, although 5.0 lies outside
    [[0, 1]]; it refuses the same correlation with [BOUNDS] when the curve has
    two breakpoints; and it installs the two-breakpoint curve whose
    correlations are NaN, which no comparison of the validation catches. *)
Theorem C3_out_of_range_correlations_installed :
  let m := binary64.LinearDecayCorrelationModel_new 1 1 in
  (binary64.setCorrelationGroupParameters 0 binary64.curve_single_5 m =
     (Ok tt, binary64.mkModel "LinearDecayCorrelation" [(-1)%Z]
               [binary64.curve_single_5]) /\
   (5 <=? 1)%float = false) /\
  raises (fst (binary64.setCorrelationGroupParameters 0 binary64.curve_pair_5 m))
    BOUNDS /\
  (binary64.setCorrelationGroupParameters 0 binary64.curve_nan m =
     (Ok tt, binary64.mkModel "LinearDecayCorrelation" [(-1)%Z]
               [binary64.curve_nan]) /\
   ((0 <=? nan)%float && (nan <=? 1)%float) = false).
Proof. cbv zeta. repeat split; reflexivity. Qed.

(** C4.  With [numSMParams = 2] and [numCPGroups = 5] the group index 3, which
    is below the number of groups asked for, is refused by every member
    function that takes a group index; with [numSMParams = 5] and
    [numCPGroups = 2] the same index, which is beyond the number of groups
    asked for, is accepted.  The bound checked is the number of sensor model
    parameters. *)
Theorem C4_group_index_checked_against_numSMParams :
  let small := LinearDecayCorrelationModel_new 2 5 in
  let large := LinearDecayCorrelationModel_new 5 2 in
  let curve := mkParameters [1.0; 0.5] [0; 10] in
  (raises (getCorrelationGroupParameters 3 small) INDEX_OUT_OF_RANGE /\
   raises (fst (setCorrelationGroupParameters 3 curve small)) INDEX_OUT_OF_RANGE /\
   raises (getCorrelationCoefficient 3 0 small) INDEX_OUT_OF_RANGE /\
   raises (fst (setCorrelationParameterGroup 0 3 small)) INDEX_OUT_OF_RANGE) /\
  (getCorrelationGroupParameters 3 large = Ok Parameters_default /\
   fst (setCorrelationGroupParameters 3 curve large) = Ok tt /\
   fst (setCorrelationParameterGroup 0 3 large) = Ok tt).
Proof. cbv zeta. repeat split; reflexivity. Qed.

(** C5.  On a group that holds the curve with times [0, 10, 20] and
    correlations [1.0, 0.5, 0.0], the coefficient is 1.0 at 0, 0.75 at 5,
    0.25 at 15, 0.0 at 20 and 0.0 at 25; beyond the last breakpoint it is the
    last correlation, 0.0, for every time. *)
Theorem C5_curve_0_10_20 g m :
  theCorrParams m !! g = Some curve_0_10_20 ->
  returns (getCorrelationCoefficient g 0 m) (fun r => r == 1.0) /\
  returns (getCorrelationCoefficient g 5 m) (fun r => r == 0.75) /\
  returns (getCorrelationCoefficient g 15 m) (fun r => r == 0.25) /\
  returns (getCorrelationCoefficient g 20 m) (fun r => r == 0.0) /\
  returns (getCorrelationCoefficient g 25 m) (fun r => r == 0.0) /\
  forall deltaTime, 20 < fabs deltaTime ->
    returns (getCorrelationCoefficient g deltaTime m) (fun r => r == 0.0).
Proof.
  intros Hcp.
  assert (Hev : forall dt, getCorrelationCoefficient g dt m =
            (correlation ← getCorrelationCoefficient_loop curve_0_10_20 (fabs dt)
                             2 1 1.0 0 1.0;
             Ok (clamp correlation))).
  { intros dt. by apply getCorrelationCoefficient_stored. }
  rewrite !Hev. do 5 (split; [vm_compute; reflexivity |]).
  intros dt Hdt. rewrite Hev.
  assert (H10 : Qle_bool (fabs dt) 10 = false).
  { apply Qle_bool_false. apply Qlt_trans with 20; [reflexivity | done]. }
  assert (H20 : Qle_bool (fabs dt) 20 = false) by by apply Qle_bool_false.
  cbn [getCorrelationCoefficient_loop]. unfold curve_0_10_20, vec_at.
  cbn [theInitialCorrsPerSegment theTimesPerSegment lookup list_lookup
       mbind outcome_bind].
  rewrite H10. cbn [mbind outcome_bind]. rewrite H20.
  vm_compute. reflexivity.
Qed.

Lemma C5_curve_0_10_20_witness :
  let m := snd (setCorrelationGroupParameters 0 curve_0_10_20
                  (LinearDecayCorrelationModel_new 1 1)) in
  theCorrParams m !! 0%nat = Some curve_0_10_20 /\
  returns (getCorrelationCoefficient 0 5 m) (fun r => r == 0.75).
Proof.
  cbv zeta. split; [reflexivity |].
  apply (C5_curve_0_10_20 0
           (snd (setCorrelationGroupParameters 0 curve_0_10_20
                   (LinearDecayCorrelationModel_new 1 1)))).
  reflexivity.
Defined.

(** C6.  [setCorrelationGroupParameters] is all or nothing: when it throws
    ([INDEX_OUT_OF_RANGE] or [BOUNDS]) the object is exactly as before; when
    it returns, the group holds the new curve in full, the other groups and
    the group mapping are as before; it has no other outcome. *)
Theorem C6_setCorrelationGroupParameters_all_or_nothing g p m :
  match setCorrelationGroupParameters g p m with
  | (Ok _, m') =>
      theCorrParams m' !! g = Some p /\
      (forall k, k <> g -> theCorrParams m' !! k = theCorrParams m !! k) /\
      length (theCorrParams m') = length (theCorrParams m) /\
      theGroupMapping m' = theGroupMapping m /\
      theFormat m' = theFormat m
  | (Throw e, m') =>
      m' = m /\ (getError e = INDEX_OUT_OF_RANGE \/ getError e = BOUNDS)
  | (Undefined _, _) => False
  end.
Proof.
  case_call Hc; [| | done].
  - destruct Hc as (Hg & _ & ->). cbn. split; [by apply list_lookup_insert_eq |].
    split; [| by rewrite length_insert].
    intros k Hk. by apply list_lookup_insert_ne.
  - destruct Hc as (-> & [[He _] | [He _]]); auto.
Qed.

Section StoredCurve.

(** A group of a reachable object that holds a non-empty curve. *)
Variables (numSMParams numCPGroups : nat) (m : Model) (g : nat) (cp : Parameters).
Hypothesis Hreachable : reachable numSMParams numCPGroups m.
Hypothesis Hstored : theCorrParams m !! g = Some cp.
Hypothesis Hnonempty : theInitialCorrsPerSegment cp <> [].

(** Such a group always gets a coefficient: the clamped value the loop left
    in [correlation]. *)
Lemma getCorrelationCoefficient_total deltaTime :
  exists x, getCorrelationCoefficient g deltaTime m = Ok (clamp x).
Proof.
  pose proof (reachable_well_formed _ _ _ _ _ Hreachable Hstored) as Hwf.
  destruct (well_formed_first cp Hwf Hnonempty) as (c0 & t0 & Hc0 & Ht0).
  rewrite (getCorrelationCoefficient_stored _ _ _ _ _ _ Hstored Hc0 Ht0).
  destruct (getCorrelationCoefficient_loop_total cp (fabs deltaTime)
              (length (theInitialCorrsPerSegment cp) - 1) 1 c0 t0 c0) as [x ->].
  - apply Hwf.
  - apply lookup_lt_Some in Hc0. lia.
  - by exists x.
Qed.

(** C7.  On a reachable object and a group that holds a non-empty curve, the
    coefficient is returned, and it is the same for [t] and for [-t]. *)
Theorem C7_symmetric_in_time t :
  exists r,
    getCorrelationCoefficient g t m = Ok r /\
    getCorrelationCoefficient g (- t) m = Ok r.
Proof.
  destruct (getCorrelationCoefficient_total t) as [x Hx].
  exists (clamp x). split; [done |].
  rewrite <- Hx. unfold getCorrelationCoefficient. by rewrite fabs_opp.
Qed.

End StoredCurve.

Lemma C7_symmetric_in_time_witness :
  let m := snd (setCorrelationGroupParameters 0 curve_0_10_20
                  (LinearDecayCorrelationModel_new 1 1)) in
  exists r,
    getCorrelationCoefficient 0 5 m = Ok r /\
    getCorrelationCoefficient 0 (- 5) m = Ok r.
Proof.
  cbv zeta.
  apply (C7_symmetric_in_time 1 1 _ 0%nat curve_0_10_20).
  - apply reachable_setCorrelationGroupParameters, reachable_new.
  - reflexivity.
  - discriminate.
Defined.

(** C8.  In binary64 the clamp lets NaN through.  The curve with times
    [-2^1023, 2^1023] and correlations [1.0, 0.0], all finite, is accepted;
    at the time 2^1023 the width of the segment overflows, the interpolation
    divides infinity by infinity, and the coefficient returned is NaN, which
    is not in [[0, 1]].  The accepted curve with NaN correlations returns NaN
    as well. *)
Theorem C8_coefficient_can_be_NaN :
  let m := snd (binary64.setCorrelationGroupParameters 0 binary64.curve_overflow
                  (binary64.LinearDecayCorrelationModel_new 1 1)) in
  let m' := snd (binary64.setCorrelationGroupParameters 0 binary64.curve_nan
                   (binary64.LinearDecayCorrelationModel_new 1 1)) in
  fst (binary64.setCorrelationGroupParameters 0 binary64.curve_overflow
         (binary64.LinearDecayCorrelationModel_new 1 1)) = Ok tt /\
  binary64.getCorrelationCoefficient 0 0x1p1023 m = Ok nan /\
  binary64.getCorrelationCoefficient 0 4 m' = Ok nan /\
  ((0 <=? nan)%float && (nan <=? 1)%float) = false.
Proof. cbv zeta. repeat split; reflexivity. Qed.




(** C10.  In every state reachable from the constructor,
    [getNumSensorModelParameters] equals [getNumCorrelationParameterGroups]:
    both vectors are built with the same length and no member function
    resizes either of them. *)
Theorem C10_counts_agree numSMParams numCPGroups m :
  reachable numSMParams numCPGroups m ->
  getNumSensorModelParameters m = getNumCorrelationParameterGroups m.
Proof.
  intros [H1 H2]%reachable_sizes.
  unfold getNumSensorModelParameters, getNumCorrelationParameterGroups. congruence.
Qed.

Lemma C10_counts_agree_witness :
  getNumSensorModelParameters
    (snd (setCorrelationParameterGroup 1 0 (LinearDecayCorrelationModel_new 3 2))) =
  getNumCorrelationParameterGroups
    (snd (setCorrelationParameterGroup 1 0 (LinearDecayCorrelationModel_new 3 2))).
Proof.
  apply (C10_counts_agree 3 2). apply reachable_setCorrelationParameterGroup.
  apply reachable_new.
Defined.

(** * Further properties of the code *)

(** ** The group mapping *)

(** Reading the mapping at an index inside it. *)
Lemma getCorrelationParameterGroup_inside i m z :
  theGroupMapping m !! i = Some z ->
  getCorrelationParameterGroup i m = Ok z.
Proof.
  intros Hz. unfold getCorrelationParameterGroup.
  destruct (checkSensorModelParameterIndex_spec i "getCorrelationParameterGroup" m)
    as [[_ ->] | [Hi _]].
  - cbn [mbind outcome_bind]. by apply vec_at_Some.
  - apply lookup_lt_Some in Hz. lia.
Qed.

Lemma getCorrelationParameterGroup_outside i m :
  (length (theGroupMapping m) <= i)%nat ->
  getCorrelationParameterGroup i m =
  Throw (mkError INDEX_OUT_OF_RANGE
           "Sensor model parameter index is out of range."
           "csm::LinearDecayCorrelationModel::getCorrelationParameterGroup").
Proof.
  intros Hi. unfold getCorrelationParameterGroup, checkSensorModelParameterIndex.
  destruct (Nat.leb_spec (length (theGroupMapping m)) i); [done | lia].
Qed.

Lemma getCorrelationGroupParameters_inside g m p :
  theCorrParams m !! g = Some p ->
  getCorrelationGroupParameters g m = Ok p.
Proof.
  intros Hp. unfold getCorrelationGroupParameters.
  destruct (checkParameterGroupIndex_spec g "getCorrelationGroupParameters" m)
    as [[_ ->] | [Hg _]].
  - cbn [mbind outcome_bind]. by apply vec_at_Some.
  - apply lookup_lt_Some in Hp. lia.
Qed.

Lemma size_t_to_int_small g : (Z.of_nat g < 2 ^ 31)%Z -> size_t_to_int g = Z.of_nat g.
Proof.
  intros Hg. unfold size_t_to_int.
  rewrite Z.mod_small by lia.
  destruct (Z.ltb_spec (Z.of_nat g) (2 ^ 31)); [done | lia].
Qed.

(** X1.  A freshly constructed object has every sensor model parameter
    unassigned (group -1) and every group with the empty curve; an index at or
    beyond [numSMParams] is refused by both readers. *)
Theorem X1_fresh_object numSMParams numCPGroups i :
  let m := LinearDecayCorrelationModel_new numSMParams numCPGroups in
  ((i < numSMParams)%nat ->
   getCorrelationParameterGroup i m = Ok (-1)%Z /\
   getCorrelationGroupParameters i m = Ok Parameters_default) /\
  ((numSMParams <= i)%nat ->
   raises (getCorrelationParameterGroup i m) INDEX_OUT_OF_RANGE /\
   raises (getCorrelationGroupParameters i m) INDEX_OUT_OF_RANGE).
Proof.
  cbv zeta. split; intros Hi.
  - split.
    + apply getCorrelationParameterGroup_inside. cbn. by apply lookup_replicate_2.
    + apply getCorrelationGroupParameters_inside. cbn. by apply lookup_replicate_2.
  - split.
    + rewrite getCorrelationParameterGroup_outside; [done |].
      cbn. by rewrite length_replicate.
    + unfold getCorrelationGroupParameters, checkParameterGroupIndex. cbn.
      rewrite length_replicate.
      destruct (Nat.leb_spec numSMParams i); [done | lia].
Qed.

Lemma X1_fresh_object_witness :
  getCorrelationParameterGroup 1 (LinearDecayCorrelationModel_new 3 2) = Ok (-1)%Z /\
  getCorrelationGroupParameters 1 (LinearDecayCorrelationModel_new 3 2) =
    Ok Parameters_default.
Proof. apply (proj1 (X1_fresh_object 3 2 1)). lia. Defined.

(** X2.  When both indices are inside their vectors,
    [setCorrelationParameterGroup] returns; afterwards the parameter reads
    back the group just assigned (for a group index below 2^31, which an
    [int] holds), every other parameter reads as before, and the curves are
    untouched. *)
Theorem X2_setCorrelationParameterGroup_read_back i g m :
  (i < getNumSensorModelParameters m)%nat ->
  (g < getNumCorrelationParameterGroups m)%nat ->
  (Z.of_nat g < 2 ^ 31)%Z ->
  let m' := snd (setCorrelationParameterGroup i g m) in
  fst (setCorrelationParameterGroup i g m) = Ok tt /\
  getCorrelationParameterGroup i m' = Ok (Z.of_nat g) /\
  (forall j, j <> i ->
     getCorrelationParameterGroup j m' = getCorrelationParameterGroup j m) /\
  theCorrParams m' = theCorrParams m.
Proof.
  unfold getNumSensorModelParameters, getNumCorrelationParameterGroups.
  intros Hi Hg Hint. cbv zeta.
  case_call Hc; cbn [fst snd].
  - destruct Hc as (_ & _ & ->). split; [done |]. split; [| split; [| done]].
    + apply getCorrelationParameterGroup_inside. cbn.
      rewrite list_lookup_insert_eq by done. by rewrite size_t_to_int_small.
    + intros j Hj. unfold getCorrelationParameterGroup, checkSensorModelParameterIndex,
        vec_at. cbn. rewrite length_insert.
      by rewrite list_lookup_insert_ne by done.
  - destruct Hc as (_ & _ & [Hc | Hc]); lia.
  - done.
Qed.

Lemma X2_setCorrelationParameterGroup_read_back_witness :
  getCorrelationParameterGroup 2
    (snd (setCorrelationParameterGroup 2 1 (LinearDecayCorrelationModel_new 3 3))) =
  Ok 1%Z.
Proof.
  apply (X2_setCorrelationParameterGroup_read_back 2 1
           (LinearDecayCorrelationModel_new 3 3)); cbn; lia.
Defined.

(** X3.  [setCorrelationParameterGroup] checks the sensor model parameter
    index first and the group index second; either failure throws
    [INDEX_OUT_OF_RANGE] with its own message and leaves the object as it
    was. *)
Theorem X3_setCorrelationParameterGroup_failures i g m :
  ((getNumSensorModelParameters m <= i)%nat ->
   setCorrelationParameterGroup i g m =
   (Throw (mkError INDEX_OUT_OF_RANGE
             "Sensor model parameter index is out of range."
             "csm::LinearDecayCorrelationModel::setCorrelationParameterGroup"), m)) /\
  ((i < getNumSensorModelParameters m)%nat ->
   (getNumCorrelationParameterGroups m <= g)%nat ->
   setCorrelationParameterGroup i g m =
   (Throw (mkError INDEX_OUT_OF_RANGE
             "Correlation parameter group index is out of range."
             "csm::LinearDecayCorrelationModel::setCorrelationParameterGroup"), m)).
Proof.
  unfold getNumSensorModelParameters, getNumCorrelationParameterGroups.
  unfold setCorrelationParameterGroup, method_bind, call_const,
    checkSensorModelParameterIndex, checkParameterGroupIndex.
  split.
  - intros Hi. destruct (Nat.leb_spec (length (theGroupMapping m)) i); [done | lia].
  - intros Hi Hg.
    destruct (Nat.leb_spec (length (theGroupMapping m)) i); [lia |].
    destruct (Nat.leb_spec (length (theCorrParams m)) g); [done | lia].
Qed.

Lemma X3_setCorrelationParameterGroup_failures_witness :
  setCorrelationParameterGroup 7 9 (LinearDecayCorrelationModel_new 3 3) =
  (Throw (mkError INDEX_OUT_OF_RANGE
            "Sensor model parameter index is out of range."
            "csm::LinearDecayCorrelationModel::setCorrelationParameterGroup"),
   LinearDecayCorrelationModel_new 3 3).
Proof.
  apply (proj1 (X3_setCorrelationParameterGroup_failures 7 9
                  (LinearDecayCorrelationModel_new 3 3))).
  cbn. lia.
Defined.

(** X4.  On every reachable object with at most 2^31 sensor model parameters,
    each entry of the group mapping is either -1 (unassigned) or a group
    index the object accepts. *)
Theorem X4_mapping_entries numSMParams numCPGroups m i z :
  reachable numSMParams numCPGroups m ->
  (Z.of_nat numSMParams <= 2 ^ 31)%Z ->
  theGroupMapping m !! i = Some z ->
  z = (-1)%Z \/
  (0 <= z < Z.of_nat (getNumCorrelationParameterGroups m))%Z.
Proof.
  intros Hr Hn. revert i z.
  induction Hr as [| m j g Hr IH | m g p Hr IH]; intros i z.
  - cbn. intros [-> _]%lookup_replicate. by left.
  - pose proof (reachable_sizes _ _ _ Hr) as [_ Hsize].
    unfold getNumCorrelationParameterGroups in *.
    case_call Hc; cbn [snd]; [| destruct Hc as (-> & _); apply IH | done].
    destruct Hc as (Hj & Hg & ->). cbn [theGroupMapping theCorrParams].
    destruct (decide (j = i)) as [-> | Hne].
    + rewrite list_lookup_insert_eq by done. intros [= <-].
      right. rewrite size_t_to_int_small; lia.
    + rewrite list_lookup_insert_ne by done. apply IH.
  - unfold getNumCorrelationParameterGroups in *.
    case_call Hc; cbn [snd]; [| destruct Hc as (-> & _); apply IH | done].
    destruct Hc as (_ & _ & ->). cbn [theGroupMapping theCorrParams].
    rewrite length_insert. apply IH.
Qed.

Lemma X4_mapping_entries_witness :
  let m := snd (setCorrelationParameterGroup 0 2 (LinearDecayCorrelationModel_new 3 1)) in
  theGroupMapping m !! 0%nat = Some 2%Z /\
  (2%Z = (-1)%Z \/ (0 <= 2 < Z.of_nat (getNumCorrelationParameterGroups m))%Z).
Proof.
  cbv zeta. split; [reflexivity |].
  apply (X4_mapping_entries 3 1 _ 0%nat 2%Z).
  - apply reachable_setCorrelationParameterGroup, reachable_new.
  - cbn. lia.
  - reflexivity.
Defined.

(** X5.  No member function changes the format tag or the two counts: on
    every reachable object the tag is the one the constructor set and both
    counts are [numSMParams]. *)
Theorem X5_tag_and_counts_fixed numSMParams numCPGroups m :
  reachable numSMParams numCPGroups m ->
  theFormat m = "LinearDecayCorrelation"%string /\
  getNumSensorModelParameters m = numSMParams /\
  getNumCorrelationParameterGroups m = numSMParams.
Proof.
  intros Hr. split; [| by apply reachable_sizes in Hr].
  induction Hr as [| m i g _ IH | m g p _ IH]; [done | |].
  - case_call Hc; cbn [snd]; [| by destruct Hc as (-> & _) | done].
    by destruct Hc as (_ & _ & ->).
  - case_call Hc; cbn [snd]; [| by destruct Hc as (-> & _) | done].
    by destruct Hc as (_ & _ & ->).
Qed.

Lemma X5_tag_and_counts_fixed_witness :
  let m := snd (setCorrelationGroupParameters 1 curve_5_5
                  (LinearDecayCorrelationModel_new 2 7)) in
  theFormat m = "LinearDecayCorrelation"%string /\
  getNumSensorModelParameters m = 2%nat /\
  getNumCorrelationParameterGroups m = 2%nat.
Proof.
  cbv zeta. apply (X5_tag_and_counts_fixed 2 7).
  apply reachable_setCorrelationGroupParameters, reachable_new.
Defined.

(** ** The curve store *)

(** *** The validation in binary64 *)

(** One iteration of the validation loop at an index inside a curve with as
    many times as correlations. *)
Lemma binary64_setCorrelationGroupParameters_body_cases p i :
  length (binary64.theInitialCorrsPerSegment p) =
  length (binary64.theTimesPerSegment p) ->
  (i < length (binary64.theInitialCorrsPerSegment p))%nat ->
  match binary64.setCorrelationGroupParameters_body p i with
  | Ok _ => binary64.accepted_at p i
  | Throw e => getError e = BOUNDS /\ ~ binary64.accepted_at p i
  | Undefined _ => False
  end.
Proof.
  intros Hlen Hi. unfold binary64.setCorrelationGroupParameters_body.
  destruct (vec_at_lt (binary64.theInitialCorrsPerSegment p) i) as (corr & Hc & ->); [lia |].
  destruct (vec_at_lt (binary64.theTimesPerSegment p) i) as (time & Ht & ->); [lia |].
  cbn [mbind outcome_bind].
  destruct (corr <? 0)%float eqn:H0; cbn [orb].
  { split; [done |]. intros (c & t & Hc' & _ & H0' & _). congruence. }
  destruct (1 <? corr)%float eqn:H1.
  { split; [done |]. intros (c & t & Hc' & _ & _ & H1' & _). congruence. }
  destruct i as [| i]; cbn [Nat.ltb Nat.leb].
  { exists corr, time. do 4 (split; [done |]). intros; lia. }
  replace (S i - 1)%nat with i by lia.
  destruct (vec_at_lt (binary64.theInitialCorrsPerSegment p) i) as (pc & Hpc & ->); [lia |].
  destruct (vec_at_lt (binary64.theTimesPerSegment p) i) as (pt & Hpt & ->); [lia |].
  cbn [mbind outcome_bind].
  destruct (pc <? corr)%float eqn:Hcorr.
  { split; [done |]. intros (c & t & Hc' & Ht' & _ & _ & Hm).
    destruct (Hm pc pt) as [Hm1 _]; [lia | | |].
    - by replace (S i - 1)%nat with i by lia.
    - by replace (S i - 1)%nat with i by lia.
    - congruence. }
  destruct (time <? pt)%float eqn:Htime.
  { split; [done |]. intros (c & t & Hc' & Ht' & _ & _ & Hm).
    destruct (Hm pc pt) as [_ Hm2]; [lia | | |].
    - by replace (S i - 1)%nat with i by lia.
    - by replace (S i - 1)%nat with i by lia.
    - congruence. }
  exists corr, time. do 4 (split; [done |]). intros pc' pt' _ Hpc' Hpt'.
  replace (S i - 1)%nat with i in * by lia. split; congruence.
Qed.

Lemma binary64_setCorrelationGroupParameters_loop_cases p n i :
  length (binary64.theInitialCorrsPerSegment p) =
  length (binary64.theTimesPerSegment p) ->
  (i + n = length (binary64.theInitialCorrsPerSegment p))%nat ->
  match binary64.setCorrelationGroupParameters_loop p n i with
  | Ok _ => forall j, (i <= j < i + n)%nat -> binary64.accepted_at p j
  | Throw e =>
      getError e = BOUNDS /\
      exists j, (i <= j < i + n)%nat /\ ~ binary64.accepted_at p j
  | Undefined _ => False
  end.
Proof.
  intros Hlen. revert i.
  induction n as [| n IH]; intros i Hi;
    cbn [binary64.setCorrelationGroupParameters_loop].
  - intros j Hj. lia.
  - pose proof (binary64_setCorrelationGroupParameters_body_cases p i Hlen) as Hb.
    destruct (binary64.setCorrelationGroupParameters_body p i) as [[] | e | f];
      cbn [mbind outcome_bind].
    + specialize (IH (S i)).
      destruct (binary64.setCorrelationGroupParameters_loop p n (S i)) as [[] | e | f].
      * intros j Hj. destruct (decide (j = i)) as [-> | Hne].
        -- apply Hb. lia.
        -- apply IH; lia.
      * destruct IH as (He & j & Hj & Hna); [lia |].
        split; [done |]. exists j. split; [lia | done].
      * apply IH. lia.
    + destruct Hb as [He Hna]; [lia |]. split; [done |]. exists i. split; [lia | done].
    + apply Hb. lia.
Qed.

(** X6.  In binary64, for a group index inside the store,
    [setCorrelationGroupParameters] returns exactly for the curves with as
    many times as correlations that have fewer than two breakpoints or else
    pass every comparison of the loop: no correlation compares below 0.0 or
    above 1.0, no correlation compares above its predecessor and no time
    compares below its predecessor.  A NaN, for which every comparison is
    false, passes. *)
Theorem X6_accepted_curves g p m :
  (g < length (binary64.theCorrParams m))%nat ->
  fst (binary64.setCorrelationGroupParameters g p m) = Ok tt <->
  length (binary64.theInitialCorrsPerSegment p) =
  length (binary64.theTimesPerSegment p) /\
  ((2 <= length (binary64.theInitialCorrsPerSegment p))%nat ->
   (forall i c, binary64.theInitialCorrsPerSegment p !! i = Some c ->
      (c <? 0)%float = false /\ (1 <? c)%float = false) /\
   (forall i c c',
      binary64.theInitialCorrsPerSegment p !! i = Some c ->
      binary64.theInitialCorrsPerSegment p !! S i = Some c' ->
      (c <? c')%float = false) /\
   (forall i t t',
      binary64.theTimesPerSegment p !! i = Some t ->
      binary64.theTimesPerSegment p !! S i = Some t' ->
      (t' <? t)%float = false)).
Proof.
  intros Hg.
  unfold binary64.setCorrelationGroupParameters, binary64.method_bind,
    binary64.call_const, binary64.lift, binary64.this, binary64.method_ret,
    binary64.set_theCorrParams, binary64.checkParameterGroupIndex, vec_assign.
  destruct (Nat.leb_spec (length (binary64.theCorrParams m)) g); [lia |].
  destruct (Nat.eqb_spec (length (binary64.theInitialCorrsPerSegment p))
              (length (binary64.theTimesPerSegment p))) as [Hlen | Hlen]; cbn [negb].
  2: { split; [done | by intros [? _]]. }
  destruct (Nat.ltb_spec 1 (length (binary64.theInitialCorrsPerSegment p)))
    as [Hsize | Hsize].
  2: { destruct (Nat.ltb_spec g (length (binary64.theCorrParams m))); [| lia].
       split; [| done]. intros _. split; [done | lia]. }
  pose proof (binary64_setCorrelationGroupParameters_loop_cases p
                (length (binary64.theInitialCorrsPerSegment p)) 0 Hlen eq_refl) as Hl.
  destruct (binary64.setCorrelationGroupParameters_loop _ _ _) as [[] | e | f];
    [| | done].
  - destruct (Nat.ltb_spec g (length (binary64.theCorrParams m))); [| lia].
    split; [| done]. intros _. split; [done |]. intros _.
    assert (Hat : forall j, (j < length (binary64.theInitialCorrsPerSegment p))%nat ->
                            binary64.accepted_at p j) by (intros; apply Hl; lia).
    split; [| split].
    + intros i c Hi. destruct (Hat i) as (c' & _ & Hc' & _ & Hlo & Hhi & _).
      { by apply lookup_lt_Some in Hi. }
      split; congruence.
    + intros i c c' Hi HSi.
      destruct (Hat (S i)) as (c1 & t1 & Hc1 & Ht1 & _ & _ & Hm).
      { by apply lookup_lt_Some in HSi. }
      destruct (lookup_lt_is_Some_2 (binary64.theTimesPerSegment p) i) as [t Ht].
      { apply lookup_lt_Some in Hi. lia. }
      destruct (Hm c t) as [Hm1 _]; [lia | | |].
      * by replace (S i - 1)%nat with i by lia.
      * by replace (S i - 1)%nat with i by lia.
      * congruence.
    + intros i t t' Hi HSi.
      destruct (Hat (S i)) as (c1 & t1 & Hc1 & Ht1 & _ & _ & Hm).
      { apply lookup_lt_Some in HSi. lia. }
      destruct (lookup_lt_is_Some_2 (binary64.theInitialCorrsPerSegment p) i) as [c Hc].
      { apply lookup_lt_Some in Hi. lia. }
      destruct (Hm c t) as [_ Hm2]; [lia | | |].
      * by replace (S i - 1)%nat with i by lia.
      * by replace (S i - 1)%nat with i by lia.
      * congruence.
  - split; [done |]. intros [_ Hall]. destruct (Hall ltac:(lia)) as (Hrange & Hcorr & Htime).
    destruct Hl as (_ & j & Hj & Hna). destruct Hna.
    destruct (lookup_lt_is_Some_2 (binary64.theInitialCorrsPerSegment p) j) as [c Hc]; [lia |].
    destruct (lookup_lt_is_Some_2 (binary64.theTimesPerSegment p) j) as [t Ht]; [lia |].
    exists c, t. do 2 (split; [done |]).
    destruct (Hrange j c Hc) as [Hlo Hhi]. do 2 (split; [done |]).
    intros pc pt Hpos Hpc Hpt.
    destruct j as [| j]; [lia |]. replace (S j - 1)%nat with j in * by lia.
    split; [by apply (Hcorr j) | by apply (Htime j)].
Qed.

Lemma X6_accepted_curves_witness :
  fst (binary64.setCorrelationGroupParameters 0 binary64.curve_nan
         (binary64.LinearDecayCorrelationModel_new 1 1)) = Ok tt <->
  length (binary64.theInitialCorrsPerSegment binary64.curve_nan) =
  length (binary64.theTimesPerSegment binary64.curve_nan) /\
  ((2 <= length (binary64.theInitialCorrsPerSegment binary64.curve_nan))%nat ->
   (forall i c, binary64.theInitialCorrsPerSegment binary64.curve_nan !! i = Some c ->
      (c <? 0)%float = false /\ (1 <? c)%float = false) /\
   (forall i c c',
      binary64.theInitialCorrsPerSegment binary64.curve_nan !! i = Some c ->
      binary64.theInitialCorrsPerSegment binary64.curve_nan !! S i = Some c' ->
      (c <? c')%float = false) /\
   (forall i t t',
      binary64.theTimesPerSegment binary64.curve_nan !! i = Some t ->
      binary64.theTimesPerSegment binary64.curve_nan !! S i = Some t' ->
      (t' <? t)%float = false)).
Proof.
  apply (X6_accepted_curves 0 binary64.curve_nan
           (binary64.LinearDecayCorrelationModel_new 1 1)).
  cbn. lia.
Defined.


(** X8.  [setCorrelationGroupParameters] checks the group index before it
    looks at the curve: an index outside the store throws
    [INDEX_OUT_OF_RANGE] whatever the curve; with the index inside, a curve
    whose two vectors differ in length throws [BOUNDS] with the message on
    the number of correlations and times.  Both leave the object as it
    was. *)
Theorem X8_setCorrelationGroupParameters_failures g p m :
  ((getNumCorrelationParameterGroups m <= g)%nat ->
   setCorrelationGroupParameters g p m =
   (Throw (mkError INDEX_OUT_OF_RANGE
             "Correlation parameter group index is out of range."
             "csm::LinearDecayCorrelationModel::setCorrelationGroupParameters"), m)) /\
  ((g < getNumCorrelationParameterGroups m)%nat ->
   length (theInitialCorrsPerSegment p) <> length (theTimesPerSegment p) ->
   setCorrelationGroupParameters g p m =
   (Throw (mkError BOUNDS
             "Must have equal number of correlations and times."
             "csm::LinearDecayCorrelationModel::setCorrelationGroupParameters"), m)).
Proof.
  unfold getNumCorrelationParameterGroups.
  unfold setCorrelationGroupParameters, method_bind, call_const, lift,
    checkParameterGroupIndex.
  split.
  - intros Hg. destruct (Nat.leb_spec (length (theCorrParams m)) g); [done | lia].
  - intros Hg Hlen.
    destruct (Nat.leb_spec (length (theCorrParams m)) g); [lia |].
    by destruct (Nat.eqb_spec (length (theInitialCorrsPerSegment p))
                   (length (theTimesPerSegment p))).
Qed.

Lemma X8_setCorrelationGroupParameters_failures_witness :
  setCorrelationGroupParameters 0 (mkParameters [1.0; 0.5] [0])
    (LinearDecayCorrelationModel_new 1 1) =
  (Throw (mkError BOUNDS
            "Must have equal number of correlations and times."
            "csm::LinearDecayCorrelationModel::setCorrelationGroupParameters"),
   LinearDecayCorrelationModel_new 1 1).
Proof.
  apply (proj2 (X8_setCorrelationGroupParameters_failures 0
                  (mkParameters [1.0; 0.5] [0])
                  (LinearDecayCorrelationModel_new 1 1))).
  - cbn. lia.
  - cbn. lia.
Defined.

(** The outcome of [setCorrelationGroupParameters] depends on the object only
    through the number of groups. *)
Lemma setCorrelationGroupParameters_outcome g p m1 m2 :
  length (theCorrParams m1) = length (theCorrParams m2) ->
  fst (setCorrelationGroupParameters g p m1) =
  fst (setCorrelationGroupParameters g p m2).
Proof.
  intros Hlen.
  unfold setCorrelationGroupParameters, method_bind, call_const, lift, this,
    method_ret, set_theCorrParams, checkParameterGroupIndex, vec_assign.
  rewrite Hlen.
  destruct (length (theCorrParams m2) <=? g)%nat; [done |].
  destruct (negb _); [done |].
  destruct (1 <? _)%nat.
  - destruct (setCorrelationGroupParameters_loop _ _ _) as [[] | |]; [| done | done].
    rewrite Hlen. by destruct (g <? length (theCorrParams m2))%nat.
  - rewrite Hlen. by destruct (g <? length (theCorrParams m2))%nat.
Qed.

(** What a call leaves behind, from its outcome. *)
Lemma setCorrelationGroupParameters_state g p m :
  snd (setCorrelationGroupParameters g p m) =
  match fst (setCorrelationGroupParameters g p m) with
  | Ok _ => mkModel (theFormat m) (theGroupMapping m) (<[g:=p]> (theCorrParams m))
  | _ => m
  end.
Proof.
  case_call Hc; cbn [fst snd]; [| | done].
  - by destruct Hc as (_ & _ & ->).
  - by destruct Hc as (-> & _).
Qed.

(** X9.  Storing the same curve in the same group a second time changes
    nothing: the second call has the outcome of the first and leaves the
    object the first call left. *)
Theorem X9_setCorrelationGroupParameters_idempotent g p m :
  setCorrelationGroupParameters g p (snd (setCorrelationGroupParameters g p m)) =
  setCorrelationGroupParameters g p m.
Proof.
  assert (Hlen : length (theCorrParams (snd (setCorrelationGroupParameters g p m))) =
                 length (theCorrParams m)).
  { rewrite setCorrelationGroupParameters_state.
    destruct (fst (setCorrelationGroupParameters g p m)); [| done | done].
    cbn. by rewrite length_insert. }
  apply injective_projections.
  - by apply setCorrelationGroupParameters_outcome.
  - rewrite (setCorrelationGroupParameters_state g p (snd _)).
    rewrite (setCorrelationGroupParameters_outcome g p _ m Hlen).
    rewrite (setCorrelationGroupParameters_state g p m).
    destruct (fst (setCorrelationGroupParameters g p m)); [| done | done].
    cbn. by rewrite list_insert_insert_eq.
Qed.

(** X10.  Curves stored in two different groups do not interfere: the two
    calls can be made in either order, with the same outcomes and the same
    object in the end, whether they succeed or fail. *)
Theorem X10_setCorrelationGroupParameters_commute g p h q m :
  g <> h ->
  let m_g := snd (setCorrelationGroupParameters g p m) in
  let m_h := snd (setCorrelationGroupParameters h q m) in
  snd (setCorrelationGroupParameters h q m_g) =
  snd (setCorrelationGroupParameters g p m_h) /\
  fst (setCorrelationGroupParameters h q m_g) =
  fst (setCorrelationGroupParameters h q m) /\
  fst (setCorrelationGroupParameters g p m_h) =
  fst (setCorrelationGroupParameters g p m).
Proof.
  intros Hne. cbv zeta.
  assert (Hlen : forall k r,
            length (theCorrParams (snd (setCorrelationGroupParameters k r m))) =
            length (theCorrParams m)).
  { intros k r. rewrite setCorrelationGroupParameters_state.
    destruct (fst (setCorrelationGroupParameters k r m)); [| done | done].
    cbn. by rewrite length_insert. }
  pose proof (setCorrelationGroupParameters_outcome h q _ m (Hlen g p)) as Hh.
  pose proof (setCorrelationGroupParameters_outcome g p _ m (Hlen h q)) as Hg.
  split; [| by split].
  rewrite (setCorrelationGroupParameters_state h q (snd _)), Hh.
  rewrite (setCorrelationGroupParameters_state g p (snd _)), Hg.
  rewrite !setCorrelationGroupParameters_state.
  destruct (fst (setCorrelationGroupParameters g p m)) as [[] | |],
           (fst (setCorrelationGroupParameters h q m)) as [[] | |]; try done.
  cbn. by rewrite list_insert_insert_ne.
Qed.

Lemma X10_setCorrelationGroupParameters_commute_witness :
  snd (setCorrelationGroupParameters 1 curve_5_5
         (snd (setCorrelationGroupParameters 0 curve_0_10_20
                 (LinearDecayCorrelationModel_new 2 2)))) =
  snd (setCorrelationGroupParameters 0 curve_0_10_20
         (snd (setCorrelationGroupParameters 1 curve_5_5
                 (LinearDecayCorrelationModel_new 2 2)))).
Proof.
  apply (X10_setCorrelationGroupParameters_commute 0 curve_0_10_20 1 curve_5_5
           (LinearDecayCorrelationModel_new 2 2)).
  lia.
Defined.

(** [getCorrelationCoefficient] looks at the object only through the number
    of groups and the curve of its group. *)
Lemma getCorrelationCoefficient_depends g t m1 m2 :
  length (theCorrParams m1) = length (theCorrParams m2) ->
  theCorrParams m1 !! g = theCorrParams m2 !! g ->
  getCorrelationCoefficient g t m1 = getCorrelationCoefficient g t m2.
Proof.
  intros Hlen Hg.
  unfold getCorrelationCoefficient, checkParameterGroupIndex, vec_at.
  by rewrite Hlen, Hg.
Qed.

(** X11.  The coefficient of a group is not affected by assigning a sensor
    model parameter to a group, nor by a call that stores a curve in another
    group, whether these calls succeed or fail. *)
Theorem X11_coefficient_frame g t m :
  (forall i k,
     getCorrelationCoefficient g t (snd (setCorrelationParameterGroup i k m)) =
     getCorrelationCoefficient g t m) /\
  (forall h q, h <> g ->
     getCorrelationCoefficient g t (snd (setCorrelationGroupParameters h q m)) =
     getCorrelationCoefficient g t m).
Proof.
  split.
  - intros i k. apply getCorrelationCoefficient_depends.
    + case_call Hc; cbn [snd]; [| by destruct Hc as (-> & _) | done].
      by destruct Hc as (_ & _ & ->).
    + case_call Hc; cbn [snd]; [| by destruct Hc as (-> & _) | done].
      by destruct Hc as (_ & _ & ->).
  - intros h q Hne. rewrite setCorrelationGroupParameters_state.
    destruct (fst (setCorrelationGroupParameters h q m)); [| done | done].
    apply getCorrelationCoefficient_depends; cbn.
    + by rewrite length_insert.
    + by rewrite list_lookup_insert_ne.
Qed.

Lemma X11_coefficient_frame_witness :
  let m := snd (setCorrelationGroupParameters 0 curve_0_10_20
                  (LinearDecayCorrelationModel_new 2 2)) in
  getCorrelationCoefficient 0 5 (snd (setCorrelationGroupParameters 1 curve_5_5 m)) =
  getCorrelationCoefficient 0 5 m.
Proof.
  cbv zeta.
  apply (proj2 (X11_coefficient_frame 0 5
                  (snd (setCorrelationGroupParameters 0 curve_0_10_20
                          (LinearDecayCorrelationModel_new 2 2))))).
  lia.
Defined.

(** X12.  The overload of [setCorrelationGroupParameters] that takes two
    vectors takes the correlations first and the times second: when it
    returns, [getCorrelationGroupParameters] reads back a curve with exactly
    these correlations and these times; when it does not, the group reads as
    before. *)
Theorem X12_vectors_read_back g corrs times m :
  let m' := snd (setCorrelationGroupParameters_vectors g corrs times m) in
  match fst (setCorrelationGroupParameters_vectors g corrs times m) with
  | Ok _ =>
      exists p, getCorrelationGroupParameters g m' = Ok p /\
                theInitialCorrsPerSegment p = corrs /\
                theTimesPerSegment p = times
  | _ => getCorrelationGroupParameters g m' = getCorrelationGroupParameters g m
  end.
Proof.
  cbv zeta. unfold setCorrelationGroupParameters_vectors.
  case_call Hc; cbn [fst snd]; [| by destruct Hc as (-> & _) | done].
  destruct Hc as (Hg & _ & ->). exists (mkParameters corrs times). split; [| done].
  apply getCorrelationGroupParameters_inside. cbn.
  by apply list_lookup_insert_eq.
Qed.

(** ** The evaluation, breakpoint by breakpoint, in binary64 *)

(** An iteration whose comparison [adt <= time] is false moves on to the
    next breakpoint. *)
Lemma binary64_getCorrelationCoefficient_loop_advance
    cp adt n s prevCorr prevTime correlation c t :
  binary64.theInitialCorrsPerSegment cp !! s = Some c ->
  binary64.theTimesPerSegment cp !! s = Some t ->
  (adt <=? t)%float = false ->
  binary64.getCorrelationCoefficient_loop cp adt (S n) s prevCorr prevTime correlation =
  binary64.getCorrelationCoefficient_loop cp adt n (S s) c t c.
Proof.
  intros Hc Ht Hlt. cbn [binary64.getCorrelationCoefficient_loop].
  rewrite (vec_at_Some _ _ _ Hc), (vec_at_Some _ _ _ Ht). cbn [mbind outcome_bind].
  by rewrite Hlt.
Qed.

(** The loop passes the breakpoints whose comparison is false: started
    behind breakpoint [s0], after [d] of them it stands behind breakpoint
    [s0 + d]. *)
Lemma binary64_getCorrelationCoefficient_loop_skip cp adt d :
  forall n s0 pc pt c' t',
    binary64.theInitialCorrsPerSegment cp !! s0 = Some pc ->
    binary64.theTimesPerSegment cp !! s0 = Some pt ->
    binary64.theInitialCorrsPerSegment cp !! (s0 + d)%nat = Some c' ->
    binary64.theTimesPerSegment cp !! (s0 + d)%nat = Some t' ->
    (forall j t, (s0 < j <= s0 + d)%nat ->
       binary64.theTimesPerSegment cp !! j = Some t -> (adt <=? t)%float = false) ->
    binary64.getCorrelationCoefficient_loop cp adt (d + n) (S s0) pc pt pc =
    binary64.getCorrelationCoefficient_loop cp adt n (S (s0 + d)) c' t' c'.
Proof.
  induction d as [| d IH]; intros n s0 pc pt c' t' Hpc Hpt Hc' Ht' Hbelow.
  - rewrite Nat.add_0_r in *. cbn [Nat.add]. congruence.
  - destruct (lookup_lt_is_Some_2 (binary64.theInitialCorrsPerSegment cp) (S s0))
      as [c1 Hc1].
    { apply lookup_lt_Some in Hc'. lia. }
    destruct (lookup_lt_is_Some_2 (binary64.theTimesPerSegment cp) (S s0)) as [t1 Ht1].
    { apply lookup_lt_Some in Ht'. lia. }
    cbn [Nat.add].
    rewrite (binary64_getCorrelationCoefficient_loop_advance _ _ _ _ _ _ _ c1 t1 Hc1 Ht1).
    2: { apply (Hbelow (S s0)); [lia | done]. }
    replace (s0 + S d)%nat with (S s0 + d)%nat in * by lia.
    apply IH; try done.
    intros j t Hj. apply Hbelow. lia.
Qed.

(** X15.  In binary64, on a group that holds a curve with as many times as
    correlations, for a time whose magnitude fails the comparison
    [adt <= time] with the time of every breakpoint from the second on, as
    it does when it lies beyond all of them, the coefficient is the clamped
    correlation of the last breakpoint; no arithmetic is involved. *)
Theorem X15_flat_beyond_the_breakpoints g m cp last cl tl t :
  binary64.theCorrParams m !! g = Some cp ->
  S last = length (binary64.theInitialCorrsPerSegment cp) ->
  binary64.theInitialCorrsPerSegment cp !! last = Some cl ->
  binary64.theTimesPerSegment cp !! last = Some tl ->
  (forall j tj, (1 <= j)%nat -> binary64.theTimesPerSegment cp !! j = Some tj ->
     (binary64.fabs t <=? tj)%float = false) ->
  binary64.getCorrelationCoefficient g t m = Ok (binary64.clamp cl).
Proof.
  intros Hcp Hlast Hcl Htl Hbeyond.
  destruct (lookup_lt_is_Some_2 (binary64.theInitialCorrsPerSegment cp) 0) as [c0 Hc0]; [lia |].
  destruct (lookup_lt_is_Some_2 (binary64.theTimesPerSegment cp) 0) as [t0 Ht0].
  { apply lookup_lt_Some in Htl. lia. }
  unfold binary64.getCorrelationCoefficient, binary64.checkParameterGroupIndex.
  pose proof (lookup_lt_Some _ _ _ Hcp) as Hg.
  destruct (Nat.leb_spec (length (binary64.theCorrParams m)) g); [lia |].
  cbn [mbind outcome_bind]. rewrite (vec_at_Some _ _ _ Hcp).
  cbn [mbind outcome_bind]. rewrite (vec_at_Some _ _ _ Hc0), (vec_at_Some _ _ _ Ht0).
  cbn [mbind outcome_bind].
  replace (length (binary64.theInitialCorrsPerSegment cp) - 1)%nat
    with (last + 0)%nat by lia.
  rewrite (binary64_getCorrelationCoefficient_loop_skip cp (binary64.fabs t) last
             0 0 c0 t0 cl tl); try done.
  intros j tj Hj. apply Hbeyond. lia.
Qed.

Lemma X15_flat_beyond_the_breakpoints_witness :
  let m := snd (binary64.setCorrelationGroupParameters 0 binary64.curve_0_10_10
                  (binary64.LinearDecayCorrelationModel_new 1 1)) in
  binary64.getCorrelationCoefficient 0 (-30) m =
  Ok (binary64.clamp 0x1.999999999999ap-5).
Proof.
  cbv zeta.
  apply (X15_flat_beyond_the_breakpoints 0 _ binary64.curve_0_10_10 2
           0x1.999999999999ap-5 10 (-30)).
  - reflexivity.
  - reflexivity.
  - reflexivity.
  - reflexivity.
  - intros [| [| [| j]]] tj Hj; cbn; intros [= <-]; try lia; reflexivity.
Defined.

(** X16.  A group that holds a curve with a single breakpoint has the same
    coefficient for every time, the clamped correlation of that breakpoint;
    the time of the breakpoint plays no role. *)
Theorem X16_single_breakpoint_constant g m c0 t0 t :
  theCorrParams m !! g = Some (mkParameters [c0] [t0]) ->
  getCorrelationCoefficient g t m = Ok (clamp c0).
Proof.
  intros Hcp.
  by rewrite (getCorrelationCoefficient_stored g t m _ c0 t0 Hcp).
Qed.

Lemma X16_single_breakpoint_constant_witness :
  getCorrelationCoefficient 0 2
    (snd (setCorrelationGroupParameters 0 (mkParameters [7.5] [3])
            (LinearDecayCorrelationModel_new 1 1))) = Ok (clamp 7.5).
Proof.
  apply (X16_single_breakpoint_constant 0 _ 7.5 3 2). reflexivity.
Defined.

(** X19.  On a group that holds the empty curve, as every group of a fresh
    object does, [getCorrelationCoefficient] does not throw: it reads the
    first element of an empty vector. *)
Theorem X19_empty_curve_read_out_of_bounds g m cp t :
  theCorrParams m !! g = Some cp ->
  theInitialCorrsPerSegment cp = [] ->
  getCorrelationCoefficient g t m = Undefined OutOfBounds.
Proof.
  intros Hcp Hempty. unfold getCorrelationCoefficient.
  destruct (checkParameterGroupIndex_spec g "getCorrelationCoefficient" m)
    as [[_ ->] | [Hg _]].
  - cbn [mbind outcome_bind]. rewrite (vec_at_Some _ _ _ Hcp).
    cbn [mbind outcome_bind]. by rewrite Hempty.
  - apply lookup_lt_Some in Hcp. lia.
Qed.

Lemma X19_empty_curve_read_out_of_bounds_witness :
  getCorrelationCoefficient 1 4 (LinearDecayCorrelationModel_new 2 2) =
  Undefined OutOfBounds.
Proof.
  apply (X19_empty_curve_read_out_of_bounds 1 _ Parameters_default 4); reflexivity.
Defined.

(** ** The coordinates with covariance of csm.h *)

(** Writing a cell of a vector and reading the vector afterwards. *)
Lemma vec_assign_read {A} (v : list A) i x :
  (i < length v)%nat ->
  vec_assign v i x = Ok (<[i:=x]> v) /\
  vec_at (<[i:=x]> v) i = Ok x /\
  forall j, j <> i -> vec_at (<[i:=x]> v) j = vec_at v j.
Proof.
  intros Hi. unfold vec_assign, vec_at.
  destruct (Nat.ltb_spec i (length v)); [| lia]. split; [done |]. split.
  - by rewrite list_lookup_insert_eq.
  - intros j Hj. by rewrite list_lookup_insert_ne.
Qed.

Section CovarIndex.

(** A square matrix of [dim] rows small enough for [unsigned int]. *)
Variable dim : N.
Hypothesis Hdim : (dim * dim <= UINT_MODULUS)%N.

(** Inside the matrix the index expression does not wrap and stays inside
    the [dim * dim] cells. *)
Lemma covar_index_inside l s :
  (l < dim)%N -> (s < dim)%N ->
  covar_index dim l s = (dim * l + s)%N /\ (dim * l + s < dim * dim)%N.
Proof.
  intros Hl Hs. unfold covar_index, UINT_MODULUS in *.
  assert (Hlt : (dim * l + s < dim * dim)%N) by nia.
  split; [| done].
  rewrite (N.mod_small (dim * l)) by nia. apply N.mod_small. lia.
Qed.

(** Different cells of the matrix have different indices. *)
Lemma covar_index_injective l s l' s' :
  (l < dim)%N -> (s < dim)%N -> (l' < dim)%N -> (s' < dim)%N ->
  covar_index dim l s = covar_index dim l' s' -> l = l' /\ s = s'.
Proof.
  intros Hl Hs Hl' Hs'.
  destruct (covar_index_inside l s Hl Hs) as [-> _].
  destruct (covar_index_inside l' s' Hl' Hs') as [-> _].
  intros Heq. assert (l = l') by nia. subst. split; [done | lia].
Qed.

End CovarIndex.

Lemma dim_2_fits : (2 * 2 <= UINT_MODULUS)%N.
Proof. by vm_compute. Qed.

Lemma dim_3_fits : (3 * 3 <= UINT_MODULUS)%N.
Proof. by vm_compute. Qed.

(** X20.  On an [ImageCoordCovar] with its four covariance cells, writing a
    cell through [covar(l, s)] with [l, s < 2] succeeds, keeps the coordinate
    and the four cells, and the value reads back through [covar(l, s)] and
    through [covar(2*l + s)]; every other cell of the matrix reads as
    before. *)
Theorem X20_ImageCoordCovar_write_read c l s v :
  length (ImageCoordCovar.theCovar c) = 4%nat ->
  (l < 2)%N -> (s < 2)%N ->
  exists c',
    ImageCoordCovar.covar_ls_assign l s v c = Ok c' /\
    ImageCoordCovar.base c' = ImageCoordCovar.base c /\
    length (ImageCoordCovar.theCovar c') = 4%nat /\
    ImageCoordCovar.covar_ls l s c' = Ok v /\
    ImageCoordCovar.covar (2 * l + s) c' = Ok v /\
    forall l' s', (l' < 2)%N -> (s' < 2)%N -> (l', s') <> (l, s) ->
      ImageCoordCovar.covar_ls l' s' c' = ImageCoordCovar.covar_ls l' s' c.
Proof.
  intros Hlen Hl Hs.
  destruct (covar_index_inside 2 dim_2_fits l s Hl Hs) as [Hidx Hin].
  unfold ImageCoordCovar.covar_ls_assign, ImageCoordCovar.covar_ls,
    ImageCoordCovar.covar.
  destruct (vec_assign_read (ImageCoordCovar.theCovar c)
              (N.to_nat (covar_index 2 l s)) v) as (-> & Hread & Hother).
  { rewrite Hidx, Hlen. lia. }
  cbn [mbind outcome_bind]. eexists. split; [done |]. cbn.
  split; [done |]. split; [by rewrite length_insert |]. split; [done |].
  split; [by rewrite <- Hidx |].
  intros l' s' Hl' Hs' Hne. apply Hother.
  intros Heq%N2Nat.inj.
  destruct (covar_index_injective 2 dim_2_fits l' s' l s) as [-> ->]; done.
Qed.

Lemma X20_ImageCoordCovar_write_read_witness :
  exists c',
    ImageCoordCovar.covar_ls_assign 1 0 2.5 (ImageCoordCovar.new 10 20) = Ok c' /\
    ImageCoordCovar.covar_ls 1 0 c' = Ok 2.5.
Proof.
  destruct (X20_ImageCoordCovar_write_read (ImageCoordCovar.new 10 20) 1 0 2.5)
    as (c' & H1 & _ & _ & H2 & _); [reflexivity | reflexivity | reflexivity |].
  exists c'. by split.
Defined.

(** X21.  The same for [EcefCoordCovar], its nine cells and [l, s < 3]; the
    one-dimensional index is [3*l + s]. *)
Theorem X21_EcefCoordCovar_write_read c l s v :
  length (EcefCoordCovar.theCovar c) = 9%nat ->
  (l < 3)%N -> (s < 3)%N ->
  exists c',
    EcefCoordCovar.covar_ls_assign l s v c = Ok c' /\
    EcefCoordCovar.base c' = EcefCoordCovar.base c /\
    length (EcefCoordCovar.theCovar c') = 9%nat /\
    EcefCoordCovar.covar_ls l s c' = Ok v /\
    EcefCoordCovar.covar (3 * l + s) c' = Ok v /\
    forall l' s', (l' < 3)%N -> (s' < 3)%N -> (l', s') <> (l, s) ->
      EcefCoordCovar.covar_ls l' s' c' = EcefCoordCovar.covar_ls l' s' c.
Proof.
  intros Hlen Hl Hs.
  destruct (covar_index_inside 3 dim_3_fits l s Hl Hs) as [Hidx Hin].
  unfold EcefCoordCovar.covar_ls_assign, EcefCoordCovar.covar_ls,
    EcefCoordCovar.covar.
  destruct (vec_assign_read (EcefCoordCovar.theCovar c)
              (N.to_nat (covar_index 3 l s)) v) as (-> & Hread & Hother).
  { rewrite Hidx, Hlen. lia. }
  cbn [mbind outcome_bind]. eexists. split; [done |]. cbn.
  split; [done |]. split; [by rewrite length_insert |]. split; [done |].
  split; [by rewrite <- Hidx |].
  intros l' s' Hl' Hs' Hne. apply Hother.
  intros Heq%N2Nat.inj.
  destruct (covar_index_injective 3 dim_3_fits l' s' l s) as [-> ->]; done.
Qed.

Lemma X21_EcefCoordCovar_write_read_witness :
  exists c',
    EcefCoordCovar.covar_ls_assign 2 1 0.25 (EcefCoordCovar.new 1 2 3) = Ok c' /\
    EcefCoordCovar.covar_ls 2 1 c' = Ok 0.25.
Proof.
  destruct (X21_EcefCoordCovar_write_read (EcefCoordCovar.new 1 2 3) 2 1 0.25)
    as (c' & H1 & _ & _ & H2 & _); [reflexivity | reflexivity | reflexivity |].
  exists c'. by split.
Defined.

(** X22.  Every constructor of the two coordinates with covariance leaves
    all cells of the covariance matrix at 0.0, and keeps the coordinate it
    was given. *)
Theorem X22_covariance_starts_at_zero aLine aSamp aX aY aZ l s :
  ((l < 2)%N -> (s < 2)%N ->
   ImageCoordCovar.covar_ls l s ImageCoordCovar.default = Ok 0.0 /\
   ImageCoordCovar.covar_ls l s (ImageCoordCovar.new aLine aSamp) = Ok 0.0) /\
  ((l < 3)%N -> (s < 3)%N ->
   EcefCoordCovar.covar_ls l s EcefCoordCovar.default = Ok 0.0 /\
   EcefCoordCovar.covar_ls l s (EcefCoordCovar.new aX aY aZ) = Ok 0.0) /\
  ImageCoordCovar.base (ImageCoordCovar.new aLine aSamp) = ImageCoord.mk aLine aSamp /\
  EcefCoordCovar.base (EcefCoordCovar.new aX aY aZ) = EcefCoord.mk aX aY aZ.
Proof.
  split; [| split; [| done]].
  - intros Hl Hs.
    destruct (covar_index_inside 2 dim_2_fits l s Hl Hs) as [Hidx Hin].
    unfold ImageCoordCovar.covar_ls, ImageCoordCovar.default, ImageCoordCovar.new.
    rewrite Hidx. cbn [ImageCoordCovar.theCovar].
    split; apply vec_at_Some, lookup_replicate_2; lia.
  - intros Hl Hs.
    destruct (covar_index_inside 3 dim_3_fits l s Hl Hs) as [Hidx Hin].
    unfold EcefCoordCovar.covar_ls, EcefCoordCovar.default, EcefCoordCovar.new.
    rewrite Hidx. cbn [EcefCoordCovar.theCovar].
    split; apply vec_at_Some, lookup_replicate_2; lia.
Qed.

Lemma X22_covariance_starts_at_zero_witness :
  ImageCoordCovar.covar_ls 1 1 (ImageCoordCovar.new 4 5) = Ok 0.0 /\
  EcefCoordCovar.covar_ls 2 2 (EcefCoordCovar.new 1 2 3) = Ok 0.0.
Proof.
  split.
  - apply (proj1 (X22_covariance_starts_at_zero 4 5 1 2 3 1 1)); reflexivity.
  - apply (proj1 (proj2 (X22_covariance_starts_at_zero 4 5 1 2 3 2 2))); reflexivity.
Defined.

(** X23.  The two-dimensional accessors do not check their indices.  With
    four (nine) cells, an index pair whose [2*l + s] ([3*l + s]) is 4 (9) or
    more reads outside the vector; a column index one row too large reads
    the cell of the next row. *)
Theorem X23_covar_indices_unchecked ic ec :
  length (ImageCoordCovar.theCovar ic) = 4%nat ->
  length (EcefCoordCovar.theCovar ec) = 9%nat ->
  (forall l s, (4 <= 2 * l + s < UINT_MODULUS)%N ->
     ImageCoordCovar.covar_ls l s ic = Undefined OutOfBounds) /\
  (forall s, (s < 2)%N ->
     ImageCoordCovar.covar_ls 0 (s + 2) ic = ImageCoordCovar.covar_ls 1 s ic) /\
  (forall l s, (9 <= 3 * l + s < UINT_MODULUS)%N ->
     EcefCoordCovar.covar_ls l s ec = Undefined OutOfBounds) /\
  (forall l s, (l < 2)%N -> (s < 3)%N ->
     EcefCoordCovar.covar_ls l (s + 3) ec = EcefCoordCovar.covar_ls (l + 1) s ec).
Proof.
  intros Hic Hec.
  assert (Hidx : forall dim l s, (dim * l + s < UINT_MODULUS)%N ->
            covar_index dim l s = (dim * l + s)%N).
  { intros dim l s H. unfold covar_index.
    rewrite (N.mod_small (dim * l)) by lia. apply N.mod_small. lia. }
  unfold ImageCoordCovar.covar_ls, EcefCoordCovar.covar_ls, vec_at.
  split; [| split; [| split]].
  - intros l s [Hlo Hhi]. rewrite Hidx by done.
    rewrite lookup_ge_None_2; [done | lia].
  - intros s Hs. rewrite !Hidx by (unfold UINT_MODULUS; lia).
    by replace (2 * 0 + (s + 2))%N with (2 * 1 + s)%N by lia.
  - intros l s [Hlo Hhi]. rewrite Hidx by done.
    rewrite lookup_ge_None_2; [done | lia].
  - intros l s Hl Hs. rewrite !Hidx by (unfold UINT_MODULUS; lia).
    by replace (3 * l + (s + 3))%N with (3 * (l + 1) + s)%N by lia.
Qed.

Lemma X23_covar_indices_unchecked_witness :
  ImageCoordCovar.covar_ls 2 0 (ImageCoordCovar.new 4 5) = Undefined OutOfBounds /\
  EcefCoordCovar.covar_ls 0 4 (EcefCoordCovar.new 1 2 3) =
  EcefCoordCovar.covar_ls 1 1 (EcefCoordCovar.new 1 2 3).
Proof.
  destruct (X23_covar_indices_unchecked (ImageCoordCovar.new 4 5)
              (EcefCoordCovar.new 1 2 3) eq_refl eq_refl) as (H1 & _ & _ & H4).
  split.
  - apply H1. by vm_compute.
  - apply (H4 0%N 1%N); reflexivity.
Defined.

(** ** Writing twice *)

(** What [setCorrelationParameterGroup] leaves behind, from its outcome, and
    what its outcome depends on. *)
Lemma setCorrelationParameterGroup_state i g m :
  snd (setCorrelationParameterGroup i g m) =
  match fst (setCorrelationParameterGroup i g m) with
  | Ok _ => mkModel (theFormat m) (<[i:=size_t_to_int g]> (theGroupMapping m))
                    (theCorrParams m)
  | _ => m
  end.
Proof.
  case_call Hc; cbn [fst snd]; [| | done].
  - by destruct Hc as (_ & _ & ->).
  - by destruct Hc as (-> & _).
Qed.

Lemma setCorrelationParameterGroup_returns i g m :
  fst (setCorrelationParameterGroup i g m) = Ok tt <->
  (i < length (theGroupMapping m))%nat /\ (g < length (theCorrParams m))%nat.
Proof.
  case_call Hc; cbn [fst]; [| | done].
  - destruct Hc as (Hi & Hg & _). by split.
  - destruct Hc as (_ & _ & Hc). split; [done | lia].
Qed.

(** X24.  A later successful write replaces an earlier one to the same place
    without a trace of it: storing a curve in a group, or assigning a group
    to a sensor model parameter, gives the same object whether or not another
    write to the same group, or the same parameter, came before. *)
Theorem X24_last_write_wins g p q i k1 k2 m :
  (fst (setCorrelationGroupParameters g q m) = Ok tt ->
   snd (setCorrelationGroupParameters g q (snd (setCorrelationGroupParameters g p m))) =
   snd (setCorrelationGroupParameters g q m)) /\
  (fst (setCorrelationParameterGroup i k2 m) = Ok tt ->
   snd (setCorrelationParameterGroup i k2 (snd (setCorrelationParameterGroup i k1 m))) =
   snd (setCorrelationParameterGroup i k2 m)).
Proof.
  split; intros Hq.
  - assert (Hlen : length (theCorrParams (snd (setCorrelationGroupParameters g p m))) =
                   length (theCorrParams m)).
    { rewrite setCorrelationGroupParameters_state.
      destruct (fst (setCorrelationGroupParameters g p m)); [| done | done].
      cbn. by rewrite length_insert. }
    rewrite (setCorrelationGroupParameters_state g q (snd _)).
    rewrite (setCorrelationGroupParameters_outcome g q _ m Hlen).
    rewrite (setCorrelationGroupParameters_state g q m), Hq.
    rewrite (setCorrelationGroupParameters_state g p m).
    destruct (fst (setCorrelationGroupParameters g p m)); [| done | done].
    cbn. by rewrite list_insert_insert_eq.
  - pose proof (proj1 (setCorrelationParameterGroup_returns i k2 m) Hq) as [Hi Hk].
    rewrite (setCorrelationParameterGroup_state i k2 m), Hq.
    rewrite (setCorrelationParameterGroup_state i k1 m).
    destruct (fst (setCorrelationParameterGroup i k1 m)) as [[] | |].
    + rewrite setCorrelationParameterGroup_state.
      rewrite (proj2 (setCorrelationParameterGroup_returns i k2 _)).
      * cbn. by rewrite list_insert_insert_eq.
      * cbn. by rewrite length_insert.
    + by rewrite setCorrelationParameterGroup_state, Hq.
    + by rewrite setCorrelationParameterGroup_state, Hq.
Qed.

Lemma X24_last_write_wins_witness :
  snd (setCorrelationGroupParameters 0 curve_5_5
         (snd (setCorrelationGroupParameters 0 curve_0_10_20
                 (LinearDecayCorrelationModel_new 1 1)))) =
  snd (setCorrelationGroupParameters 0 curve_5_5 (LinearDecayCorrelationModel_new 1 1)).
Proof.
  apply (proj1 (X24_last_write_wins 0 curve_0_10_20 curve_5_5 0 0 0
                  (LinearDecayCorrelationModel_new 1 1))).
  reflexivity.
Defined.
